(** * pynoddy.output.NoddyTopology: the topology graph engine

    A shallow embedding of the class [NoddyTopology] of
    [src/pynoddy/output.py] (Python 2, networkx 1.x): the property
    parser [read_properties], the graph builder [loadNetwork] with its
    edge classification, the pruning [filter_node_volumes] and the
    ensemble comparison ([jaccard_coefficient], [is_unique],
    [find_matching], [calculate_overlap],
    [calculate_unique_topologies]); and of
    [NoddyOutput.load_model_info], the reader of the model
    discretisation.

    Conventions of the embedding
    - a Python statement sequence that can raise is a computation in the
      exception monad [result]; the exceptions are the ones the
      interpreter raises at that statement, in evaluation order;
    - [str] is [string], a one-character [str] is [ascii], [int] is [Z],
      a [dict] is a [gmap], a [list] is a [list];
    - [float] is a type parameter [F] with its three operations
      ([float(s)], [/] and the literal [255.0]): the engine only parses
      floats and divides them by [255.0];
    - the quotient [intersection / float(union)] of two edge counts is
      the exact rational of [Q]: the code only ever compares it with
      [1], and for two counts [i <= u] the rounded quotient is [1.0]
      exactly when [i = u];
    - a file is given by the list of its lines, as [readlines] returns
      them, and a written file by the list of what is written; opening
      a file is outside the model, which starts when [open] has
      returned;
    - [networkx.Graph] is not part of the repository; it is modelled by
      its documented behaviour, a node dictionary and an edge dictionary
      keyed by unordered node pairs. *)

From Stdlib Require Import ZArith QArith String Ascii List Lia.
From stdpp Require Import base option list sorting gmap strings fin_maps pretty.

Local Open Scope string_scope.
Local Open Scope Z_scope.

(** ** Exceptions *)

Inductive exn : Set :=
  | IndexError | ValueError | KeyError | ZeroDivisionError | NetworkXError.

Inductive result (A : Type) : Type :=
  | OK (a : A)
  | Raise (e : exn).
Arguments OK {A} a.
Arguments Raise {A} e.

#[global] Instance result_ret : MRet result := λ A a, OK a.
#[global] Instance result_bind : MBind result := λ A B f m,
  match m with OK a => f a | Raise e => Raise e end.
#[global] Instance result_fmap : FMap result := λ A B f m,
  match m with OK a => OK (f a) | Raise e => Raise e end.

#[global] Instance exn_eq_dec : EqDecision exn.
Proof. solve_decision. Defined.
#[global] Instance result_eq_dec `{EqDecision A} : EqDecision (result A).
Proof. solve_decision. Defined.

(** [for x in l: s = body(s, x)], stopping at the first exception. *)
Fixpoint for_each {A S : Type} (body : S → A → result S) (l : list A) (s : S)
  : result S :=
  match l with
  | [] => OK s
  | x :: l' => s' ← body s x; for_each body l' s'
  end.

(** [d[k]] on a dictionary and [l[i]] on a list. *)
Definition dict_get `{Countable K} {V : Type} (d : gmap K V) (k : K) : result V :=
  match d !! k with Some v => OK v | None => Raise KeyError end.

Definition list_get {A : Type} (l : list A) (i : nat) : result A :=
  match l !! i with Some x => OK x | None => Raise IndexError end.

(** [l[-k]] for a positive literal [k]. *)
Definition list_get_neg {A : Type} (l : list A) (k : nat) : result A :=
  if (length l <? k)%nat then Raise IndexError
  else list_get l (length l - k).

(** [l[i]] for an [int] index of either sign. *)
Definition list_get_int {A : Type} (l : list A) (i : Z) : result A :=
  if i <? 0 then
    if Z.of_nat (length l) + i <? 0 then Raise IndexError
    else list_get l (Z.to_nat (Z.of_nat (length l) + i))
  else list_get l (Z.to_nat i).

(** [l[2:-3]]. *)
Definition slice_2_m3 {A : Type} (l : list A) : list A :=
  take (length l - 3 - 2) (drop 2 l).

(** ** Strings *)

(** The characters [str.strip] removes when called without argument. *)
Definition py_isspace (c : ascii) : bool :=
  let n := nat_of_ascii c in
  ((9 <=? n) && (n <=? 13) || (n =? 32))%nat.

Fixpoint lstrip (s : string) : string :=
  match s with
  | String c s' => if py_isspace c then lstrip s' else s
  | EmptyString => EmptyString
  end.

Fixpoint rstrip (s : string) : string :=
  match s with
  | String c s' =>
      match rstrip s' with
      | EmptyString => if py_isspace c then EmptyString else String c EmptyString
      | r => String c r
      end
  | EmptyString => EmptyString
  end.

Definition strip (s : string) : string := lstrip (rstrip s).

(** [s.split(sep)] for a one-character separator: never the empty list. *)
Fixpoint split (sep : ascii) (s : string) : list string :=
  match s with
  | EmptyString => [EmptyString]
  | String c s' =>
      if bool_decide (c = sep) then EmptyString :: split sep s'
      else match split sep s' with
           | w :: ws => String c w :: ws
           | [] => [String c EmptyString]
           end
  end.

(** [sep.join(l)]. *)
Fixpoint join (sep : string) (l : list string) : string :=
  match l with
  | [] => EmptyString
  | [w] => w
  | w :: ws => w ++ sep ++ join sep ws
  end.

(** [needle in s]. *)
Fixpoint contains (needle s : string) : bool :=
  String.prefix needle s ||
  match s with
  | EmptyString => false
  | String _ s' => contains needle s'
  end.

(** [s[i]] *)
Definition str_get (s : string) (i : nat) : result ascii :=
  match String.get i s with Some c => OK c | None => Raise IndexError end.

(** *** [int(s)] in base ten *)

Definition digit_val (c : ascii) : option Z :=
  let n := nat_of_ascii c in
  if ((48 <=? n) && (n <=? 57))%nat then Some (Z.of_nat (n - 48)) else None.

Fixpoint digits_val (acc : Z) (s : string) : option Z :=
  match s with
  | EmptyString => Some acc
  | String c s' => d ← digit_val c; digits_val (10 * acc + d) s'
  end.

Definition unsigned_val (s : string) : result Z :=
  match s with
  | EmptyString => Raise ValueError
  | _ => match digits_val 0 s with Some z => OK z | None => Raise ValueError end
  end.

(** Surrounding white space is ignored, one sign is allowed, and at least
    one digit is required; anything else is a [ValueError]. *)
Definition py_int (s : string) : result Z :=
  match strip s with
  | String "-"%char r => Z.opp <$> unsigned_val r
  | String "+"%char r => unsigned_val r
  | r => unsigned_val r
  end.

(** [int(c)] for a character [c = s[i]]. *)
Definition int_of_char (c : ascii) : result Z := py_int (String c EmptyString).

(** ** Edge classification (the loop of [loadNetwork], lines 435-460) *)

Inductive edge_type : Set :=
  | stratigraphic | fault | unconformity | intrusive | unknown.

#[global] Instance edge_type_eq_dec : EqDecision edge_type.
Proof. solve_decision. Defined.

(** [eCode] is the [int] [0] until a difference is found and a character
    of a topology code afterwards. *)
Inductive edge_code : Set :=
  | ECInt (z : Z)
  | ECChr (c : ascii).

#[global] Instance edge_code_eq_dec : EqDecision edge_code.
Proof. solve_decision. Defined.

Record edge_class : Set := EdgeClass {
  eCode : edge_code;
  eType : edge_type;
  eColour : string
}.

#[global] Instance edge_class_eq_dec : EqDecision edge_class.
Proof. solve_decision. Defined.

(** The [if int(eCode) == ... elif ...] chain. *)
Definition edge_type_of_digit (d : Z) : edge_type :=
  if d =? 0 then stratigraphic
  else if (d =? 2) || (d =? 7) || (d =? 8) then fault
  else if d =? 3 then unconformity
  else if d =? 5 then intrusive
  else unknown.

Definition edge_colour_of_digit (d : Z) : string :=
  if d =? 0 then "k"
  else if (d =? 2) || (d =? 7) || (d =? 8) then "r"
  else if d =? 3 then "b"
  else if d =? 5 then "y"
  else "g".

Definition default_class : edge_class :=
  {| eCode := ECInt 0; eType := stratigraphic; eColour := "k" |}.

(** One iteration of [for i in range(0, len(topoCode1) - 1)]. *)
Definition classify_at (topoCode1 topoCode2 : string)
    (st : edge_class) (i : nat) : result edge_class :=
  c1 ← str_get topoCode1 i;
  c2 ← str_get topoCode2 i;
  if bool_decide (c1 ≠ c2) then
    d2 ← int_of_char c2;
    d1 ← int_of_char c1;
    let e := if d1 <? d2 then c2 else c1 in
    d ← int_of_char e;
    OK {| eCode := ECChr e;
          eType := edge_type_of_digit d;
          eColour := edge_colour_of_digit d |}
  else OK st.

Definition classify_edge (topoCode1 topoCode2 : string) : result edge_class :=
  for_each (classify_at topoCode1 topoCode2)
           (seq 0 (String.length topoCode1 - 1)) default_class.


(** ** The graph ([networkx.Graph], version 1.x) *)

(** The attribute dictionary of a node. [loadNetwork] sets the five keys
    below; a node that [add_edge] had to create has none of them. *)
Record node_attr (F : Type) : Type := NodeAttr {
  lithology : option string;
  name : option string;
  colour : option (list F);
  centroid : option (list F);
  volume : option Z
}.
Arguments NodeAttr {F}.
Arguments lithology {F}.
Arguments name {F}.
Arguments colour {F}.
Arguments centroid {F}.
Arguments volume {F}.

(** The attribute dictionary of an edge, as [add_edge] is called with. *)
Record edge_attr : Set := EdgeAttr {
  edgeCode : edge_code;
  edgeType : edge_type;
  edge_colour : string;
  area : Z;
  weight : Z
}.

(** An edge is stored once, under its two node identifiers in
    lexicographic order. *)
Definition edge_key (u v : string) : string * string :=
  if String.leb u v then (u, v) else (v, u).

Record Graph (F : Type) : Type := MkGraph {
  graph_name : string;
  node : gmap string (node_attr F);
  edge : gmap (string * string) edge_attr
}.
Arguments MkGraph {F}.
Arguments graph_name {F}.
Arguments node {F}.
Arguments edge {F}.

Section Networkx.
Context {F : Type}.
Implicit Types (G : Graph F) (n u v : string).

(** [nx.Graph()] followed by [graph.name = basename]. *)
Definition nx_Graph (basename : string) : Graph F :=
  {| graph_name := basename; node := ∅; edge := ∅ |}.

Definition no_attr : node_attr F :=
  {| lithology := None; name := None; colour := None;
     centroid := None; volume := None |}.

(** [G.add_node(n, lithology=l, name=nm)]: a new node gets exactly
    these attributes, an existing one has them updated. *)
Definition add_node G n (l nm : string) : Graph F :=
  let a := default no_attr (node G !! n) in
  {| graph_name := graph_name G;
     node := <[n := {| lithology := Some l; name := Some nm;
                       colour := colour a; centroid := centroid a;
                       volume := volume a |}]> (node G);
     edge := edge G |}.

(** [G.node[n][key] = value], with [upd] the update of that key. *)
Definition set_node_attr G n (upd : node_attr F → node_attr F)
  : result (Graph F) :=
  a ← dict_get (node G) n;
  OK {| graph_name := graph_name G;
        node := <[n := upd a]> (node G);
        edge := edge G |}.

Definition ensure_node n (nodes : gmap string (node_attr F))
  : gmap string (node_attr F) :=
  match nodes !! n with Some _ => nodes | None => <[n := no_attr]> nodes end.

(** [G.add_edge(u, v, edgeCode=.., edgeType=.., colour=.., area=..,
    weight=..)]: missing end points are created, and the attributes of
    an edge that is already there are overwritten. *)
Definition add_edge G u v (a : edge_attr) : Graph F :=
  {| graph_name := graph_name G;
     node := ensure_node v (ensure_node u (node G));
     edge := <[edge_key u v := a]> (edge G) |}.

(** [G.remove_node(n)]: the node and every edge at it. *)
Definition remove_node G n : result (Graph F) :=
  match node G !! n with
  | None => Raise NetworkXError
  | Some _ =>
      OK {| graph_name := graph_name G;
            node := delete n (node G);
            edge := filter (λ kv, kv.1.1 ≠ n ∧ kv.1.2 ≠ n) (edge G) |}
  end.

Definition has_edge G u v : bool :=
  bool_decide (is_Some (edge G !! edge_key u v)).

Definition number_of_edges G : Z := Z.of_nat (size (edge G)).

(** [G.edges_iter()]: every edge once. *)
Definition edges_iter G : list (string * string) := (map_to_list (edge G)).*1.

(** [G.nodes()]: a new list of the node identifiers. *)
Definition nodes G : list string := (map_to_list (node G)).*1.

(** Every edge is stored under its ordered key; the constructors above
    keep it so. *)
Definition graph_wf G : Prop :=
  map_Forall (λ k _, edge_key k.1 k.2 = k) (edge G).

#[global] Instance graph_wf_dec G : Decision (graph_wf G).
Proof. unfold graph_wf. apply _. Defined.
End Networkx.

(** ** Property files ([read_properties]) *)

(** The [params] dictionary of one lithology. *)
Record litho_params (F : Type) : Type := LithoParams {
  litho_code : Z;
  litho_name : string;
  litho_colour : list F
}.
Arguments LithoParams {F}.
Arguments litho_code {F}.
Arguments litho_name {F}.
Arguments litho_colour {F}.

(** The [params] dictionary of one vertex. *)
Record vertex_params (F : Type) : Type := VertexParams {
  vertex_centroid : list F;
  vertex_litho : Z;
  vertex_topo : string;
  vertex_volume : Z
}.
Arguments VertexParams {F}.
Arguments vertex_centroid {F}.
Arguments vertex_litho {F}.
Arguments vertex_topo {F}.
Arguments vertex_volume {F}.

(** [range(a, b)] *)
Definition range (a b : Z) : list Z :=
  (λ k, a + Z.of_nat k) <$> seq 0 (Z.to_nat (b - a)).

(** ["%d_%s" % (litho, topo)] *)
Definition node_key (litho : Z) (topo : string) : string :=
  pretty litho ++ "_" ++ topo.

Definition TAB : ascii := ascii_of_nat 9.

Section Builder.
Context {F : Type}.
(** [float(s)], [x / y] on floats and the literal [255.0]. *)
Variable float_of_str : string → result F.
Variable fdiv : F → F → F.
Variable f255 : F.

(** The body of the loop over the lithology definitions, for the
    tokens [l] of one line. *)
Definition lithology_of_tokens (l : list string) : result (litho_params F) :=
  code ← list_get l 0 ≫= py_int;
  let nm := join " " (slice_2_m3 l) in
  r ← list_get_neg l 3 ≫= float_of_str;
  g ← list_get_neg l 2 ≫= float_of_str;
  b ← list_get_neg l 1 ≫= float_of_str;
  OK {| litho_code := code; litho_name := nm;
        litho_colour := [fdiv r f255; fdiv g f255; fdiv b f255] |}.

Definition lithology_step (lines : list string)
    (props : gmap Z (litho_params F)) (i : Z)
  : result (gmap Z (litho_params F)) :=
  line ← list_get_int lines i;
  params ← lithology_of_tokens (split " " (strip line));
  OK (<[litho_code params := params]> props).

(** First half of [read_properties]: the [.g20] file. *)
Definition read_lithologies (lines : list string)
  : result (gmap Z (litho_params F)) :=
  nevents ← (first ← list_get lines 0;
             list_get (split " " first) 2 ≫= py_int);
  for_each (lithology_step lines)
           (range (nevents + 3) (Z.of_nat (length lines))) ∅.

Definition vertex_step (props : gmap string (vertex_params F)) (l : string)
  : result (gmap string (vertex_params F)) :=
  if contains "PVRTX" l then
    let data := split " " l in
    x ← list_get data 2 ≫= float_of_str;
    y ← list_get data 3 ≫= float_of_str;
    z ← list_get data 4 ≫= float_of_str;
    litho ← list_get data 5 ≫= py_int;
    topo ← list_get data 6;
    vol ← list_get data 7 ≫= py_int;
    OK (<[node_key litho topo :=
            {| vertex_centroid := [x; y; z]; vertex_litho := litho;
               vertex_topo := topo; vertex_volume := vol |}]> props)
  else OK props.

(** Second half of [read_properties]: the [_v.vs] file. *)
Definition read_vertices (lines : list string)
  : result (gmap string (vertex_params F)) :=
  for_each vertex_step lines ∅.

Definition read_properties (g20 vs : list string)
  : result (gmap Z (litho_params F) * gmap string (vertex_params F)) :=
  lithology_properties ← read_lithologies g20;
  node_properties ← read_vertices vs;
  OK (lithology_properties, node_properties).

(** ** The graph builder ([loadNetwork]) *)

Section Load.
Variable lithology_properties : gmap Z (litho_params F).
Variable node_properties : gmap string (vertex_params F).

(** The four statements that create a node and its properties. *)
Definition load_node (G : Graph F) (id lithoCode topoCode : string)
  : result (Graph F) :=
  nm ← (c ← py_int lithoCode;
        litho_name <$> dict_get lithology_properties c);
  let G := add_node G id lithoCode nm in
  col ← (c ← py_int lithoCode;
         litho_colour <$> dict_get lithology_properties c);
  G ← set_node_attr G id (λ a,
        {| lithology := lithology a; name := name a; colour := Some col;
           centroid := centroid a; volume := volume a |});
  cen ← (c ← py_int lithoCode;
         vertex_centroid <$> dict_get node_properties (node_key c topoCode));
  G ← set_node_attr G id (λ a,
        {| lithology := lithology a; name := name a; colour := colour a;
           centroid := Some cen; volume := volume a |});
  vol ← (c ← py_int lithoCode;
         vertex_volume <$> dict_get node_properties (node_key c topoCode));
  set_node_attr G id (λ a,
        {| lithology := lithology a; name := name a; colour := colour a;
           centroid := centroid a; volume := Some vol |}).

(** The body of [for l in lines]. *)
Definition load_edge (G : Graph F) (l : string) : result (Graph F) :=
  let data := split TAB (rstrip l) in
  topoCode1 ← (d ← list_get data 0; list_get (split "_" d) 1);
  topoCode2 ← (d ← list_get data 1; list_get (split "_" d) 1);
  lithoCode1 ← (d ← list_get data 0; list_get (split "_" d) 0);
  lithoCode2 ← (d ← list_get data 1; list_get (split "_" d) 0);
  count ← list_get_neg data 1 ≫= py_int;
  cls ← classify_edge topoCode1 topoCode2;
  data0 ← list_get data 0;
  data1 ← list_get data 1;
  G ← load_node G data0 lithoCode1 topoCode1;
  G ← load_node G data1 lithoCode2 topoCode2;
  OK (add_edge G data0 data1
        {| edgeCode := eCode cls; edgeType := eType cls;
           edge_colour := eColour cls; area := count; weight := 1 |}).
End Load.

(** [loadNetwork], on the lines of the three files of the model. *)
Definition loadNetwork (basename : string) (g20 vs g23 : list string)
  : result (Graph F) :=
  '(lithology_properties, node_properties) ← read_properties g20 vs;
  for_each (load_edge lithology_properties node_properties) g23
           (nx_Graph basename).
End Builder.

(** ** Pruning and ensemble comparison *)

(** [a / float(b)] on two [int]s. *)
Definition truediv (a b : Z) : result Q :=
  if b =? 0 then Raise ZeroDivisionError else OK (a # Z.to_pos b)%Q.

Section Comparison.
Context {F : Type}.
Implicit Types (G self other : Graph F) (known uTopo : list (Graph F)).

(** The body of [for n in self.graph.nodes()]. *)
Definition filter_step (min_volume : Z) (st : Graph F * Z) (n : string)
  : result (Graph F * Z) :=
  let '(G, count) := st in
  a ← dict_get (node G) n;
  vol ← from_option OK (Raise KeyError) (volume a);
  if vol <? min_volume then
    G' ← remove_node G n;
    OK (G', count + 1)
  else OK (G, count).

(** [filter_node_volumes]: the pruned graph and the returned count. *)
Definition filter_node_volumes G (min_volume : Z) : result (Graph F * Z) :=
  for_each (filter_step min_volume) (nodes G) (G, 0).

(** The body of [for e in self.graph.edges_iter()] of
    [jaccard_coefficient], on the pair [(intersection, union)]. *)
Definition jaccard_step (G2 : Graph F) (st : Z * Z) (e : string * string) : Z * Z :=
  let '(intersection, union) := st in
  if has_edge G2 e.1 e.2 then (intersection + 1, union)
  else (intersection, union + 1).

Definition jaccard_coefficient self (G2 : Graph F) : result Q :=
  let '(intersection, union) :=
    foldl (jaccard_step G2) (0, number_of_edges self) (edges_iter self) in
  truediv intersection union.

Fixpoint is_unique self known : result bool :=
  match known with
  | [] => OK true
  | g2 :: known' =>
      j ← jaccard_coefficient self g2;
      if Qeq_bool j 1 then OK false else is_unique self known'
  end.

Fixpoint find_matching self known : result (option (Graph F)) :=
  match known with
  | [] => OK None
  | g1 :: known' =>
      j ← jaccard_coefficient self g1;
      if Qeq_bool j 1 then OK (Some g1) else find_matching self known'
  end.

(** The elements of [known] on which the loop of [is_unique] (the loop
    of [find_matching] is the same) calls [jaccard_coefficient]: the
    loop leaves at the first exception and at the first match. *)
Fixpoint jaccard_calls self known : list (Graph F) :=
  match known with
  | [] => []
  | g :: known' =>
      match jaccard_coefficient self g with
      | OK j => if Qeq_bool j 1 then [g] else g :: jaccard_calls self known'
      | Raise _ => [g]
      end
  end.

Definition calculate_overlap self (G2 : Graph F) : Z :=
  foldl (λ similarity e, if has_edge G2 e.1 e.2 then similarity + 1
                         else similarity)
        0 (edges_iter self).

(** The body of [for t in topology_list]; [f] is what has been written
    to the output file so far, one [int] a line. *)
Definition unique_step (output : option string)
    (st : list (Graph F) * list Z) (t : Graph F)
  : result (list (Graph F) * list Z) :=
  let '(uTopo, f) := st in
  u ← is_unique t uTopo;
  let uTopo := if u : bool then (uTopo ++ [t])%list else uTopo in
  OK (uTopo,
      match output with
      | Some _ => (f ++ [Z.of_nat (length uTopo)])%list
      | None => f
      end).

(** [calculate_unique_topologies(topology_list, output=...)]: the
    returned list and the lines of the output file. With an output
    path the function begins with [open(output, 'w')]; the model starts
    after that call has returned, so [Some path] stands for a path that
    could be opened, and the [IOError] of one that could not is outside
    the model. Without the keyword ([None]) no file is opened. *)
Definition calculate_unique_topologies (topology_list : list (Graph F))
    (output : option string) : result (list (Graph F) * list Z) :=
  for_each (unique_step output) topology_list ([], []).
End Comparison.

(** ** Model discretisation ([NoddyOutput.load_model_info])

    The attributes of a [NoddyOutput] object that [load_model_info]
    sets. An attribute that has not been assigned is [None]; reading it
    raises [AttributeError]. *)
Record model_info (F : Type) : Type := ModelInfo {
  nz : option Z;
  nx : option Z;
  ny : option Z;
  xmin : option F;
  ymin : option F;
  zmax : option F;
  xmax : option F;
  ymax : option F;
  zmin : option F;
  n_rocktypes : option Z;
  n_total : option Z;
  extent_x : option F;
  extent_y : option F;
  extent_z : option F;
  delx : option F;
  dely : option F;
  delz : option F
}.
Arguments ModelInfo {F}.
Arguments nz {F}.
Arguments nx {F}.
Arguments ny {F}.
Arguments xmin {F}.
Arguments ymin {F}.
Arguments zmax {F}.
Arguments xmax {F}.
Arguments ymax {F}.
Arguments zmin {F}.
Arguments n_rocktypes {F}.
Arguments n_total {F}.
Arguments extent_x {F}.
Arguments extent_y {F}.
Arguments extent_z {F}.
Arguments delx {F}.
Arguments dely {F}.
Arguments delz {F}.

(** A new object: no attribute of the model is set. *)
Definition no_info {F : Type} : model_info F :=
  ModelInfo None None None None None None None None None None None None None
            None None None None.

(** The outcome of a method that can also raise exceptions other than
    those of [exn], named by their class. *)
Inductive outcome (A : Type) : Type :=
  | Returns (a : A)
  | Raises (e : exn)
  | RaisesOther (class : string).
Arguments Returns {A} a.
Arguments Raises {A} e.
Arguments RaisesOther {A} class.

#[global] Instance outcome_ret : MRet outcome := λ A a, Returns a.
#[global] Instance outcome_bind : MBind outcome := λ A B f m,
  match m with
  | Returns a => f a
  | Raises e => Raises e
  | RaisesOther c => RaisesOther c
  end.

Definition of_result {A : Type} (r : result A) : outcome A :=
  match r with OK a => Returns a | Raise e => Raises e end.

(** [self.attr] for an attribute that may not have been set. *)
Definition getattr {A : Type} (a : option A) : outcome A :=
  match a with Some x => Returns x | None => RaisesOther "AttributeError" end.

(** [[f(l) for l in xs]] *)
Fixpoint comprehension {A B : Type} (f : A → result B) (xs : list A)
  : result (list B) :=
  match xs with
  | [] => OK []
  | x :: xs' => y ← f x; ys ← comprehension f xs'; OK (y :: ys)
  end.

Section ModelInfo.
Context {F : Type}.
(** [float(s)], [x - y] on floats, and [x / float(n)] for an [int] [n],
    which raises [ZeroDivisionError] for [n = 0]. *)
Variable float_of_str : string → result F.
Variable fsub : F → F → F.
Variable fdiv_int : F → Z → outcome F.

(** The body of [for line in filelines]. *)
Definition info_step (self : model_info F) (line : string)
  : result (model_info F) :=
  if contains "NUMBER OF LAYERS" line then
    v ← list_get (split "=" line) 1 ≫= py_int;
    OK (ModelInfo (Some v) (nx self) (ny self) (xmin self) (ymin self)
          (zmax self) (xmax self) (ymax self) (zmin self)
          (n_rocktypes self) (n_total self)
              (extent_x self) (extent_y self) (extent_z self)
              (delx self) (dely self) (delz self))
  else if contains "LAYER 1 DIMENSIONS" line then
    s ← list_get (split "=" line) 1;
    l ← comprehension py_int (drop 1 (split " " s));
    match l with
    | [a; b] =>
        OK (ModelInfo (nz self) (Some a) (Some b) (xmin self) (ymin self)
              (zmax self) (xmax self) (ymax self) (zmin self)
              (n_rocktypes self) (n_total self)
              (extent_x self) (extent_y self) (extent_z self)
              (delx self) (dely self) (delz self))
    | _ => Raise ValueError
    end
  else if contains "UPPER SW CORNER" line then
    s ← list_get (split "=" line) 1;
    l ← comprehension float_of_str (drop 1 (split " " s));
    match l with
    | [a; b; c] =>
        OK (ModelInfo (nz self) (nx self) (ny self) (Some a) (Some b)
              (Some c) (xmax self) (ymax self) (zmin self)
              (n_rocktypes self) (n_total self)
              (extent_x self) (extent_y self) (extent_z self)
              (delx self) (dely self) (delz self))
    | _ => Raise ValueError
    end
  else if contains "LOWER NE CORNER" line then
    s ← list_get (split "=" line) 1;
    l ← comprehension float_of_str (drop 1 (split " " s));
    match l with
    | [a; b; c] =>
        OK (ModelInfo (nz self) (nx self) (ny self) (xmin self) (ymin self)
              (zmax self) (Some a) (Some b) (Some c)
              (n_rocktypes self) (n_total self)
              (extent_x self) (extent_y self) (extent_z self)
              (delx self) (dely self) (delz self))
    | _ => Raise ValueError
    end
  else if contains "NUM ROCK" line then
    v ← list_get (split "=" line) 1 ≫= py_int;
    OK (ModelInfo (nz self) (nx self) (ny self) (xmin self) (ymin self)
          (zmax self) (xmax self) (ymax self) (zmin self)
          (Some v) (n_total self)
              (extent_x self) (extent_y self) (extent_z self)
              (delx self) (dely self) (delz self))
  else OK self.

(** The statements after the loop. *)
Definition derive_info (self : model_info F) : outcome (model_info F) :=
  x ← getattr (nx self);
  y ← getattr (ny self);
  z ← getattr (nz self);
  let total := x * y * z in
  x1 ← getattr (xmax self); x0 ← getattr (xmin self);
  y1 ← getattr (ymax self); y0 ← getattr (ymin self);
  z1 ← getattr (zmax self); z0 ← getattr (zmin self);
  let ex := fsub x1 x0 in
  let ey := fsub y1 y0 in
  let ez := fsub z1 z0 in
  dx ← fdiv_int ex x;
  dy ← fdiv_int ey y;
  dz ← fdiv_int ez z;
  Returns (ModelInfo (nz self) (nx self) (ny self) (xmin self) (ymin self)
             (zmax self) (xmax self) (ymax self) (zmin self)
             (n_rocktypes self) (Some total)
             (Some ex) (Some ey) (Some ez) (Some dx) (Some dy) (Some dz)).

(** [load_model_info], on the lines of the [.g00] file. *)
Definition load_model_info (self : model_info F) (filelines : list string)
  : outcome (model_info F) :=
  self ← of_result (for_each info_step filelines self);
  derive_info self.
End ModelInfo.

(** A line that one of the branches of the loop of [load_model_info]
    takes. *)
Definition info_marked (line : string) : bool :=
  contains "NUMBER OF LAYERS" line || contains "LAYER 1 DIMENSIONS" line
  || contains "UPPER SW CORNER" line || contains "LOWER NE CORNER" line
  || contains "NUM ROCK" line.

(** ** A concrete float

    For closed examples the float parameters are instantiated with exact
    rationals and a [float(s)] that reads integer literals. *)
Definition float_of_int_literal (s : string) : result Q := inject_Z <$> py_int s.
Definition loadNetworkQ := loadNetwork float_of_int_literal Qdiv 255%Q.

Definition ex_g20 : list string :=
  ["#Events = 1"; "x"; "y"; "z";
   "1 0 Upper Sand 255 0 0"; "2 0 Basalt 0 51 102"].
Definition ex_vs : list string :=
  ["PVRTX 1 10 20 30 1 000a 100
"; "PVRTX 2 11 21 31 1 001a 5
"; "PVRTX 3 12 22 32 2 051a 60
"; "SEG 1 2"].
Definition ex_g23 : list string :=
  [String.concat (String TAB "") ["1_000a"; "1_001a"; "10"];
   String.concat (String TAB "") ["1_001a"; "2_051a"; "4"];
   String.concat (String TAB "") ["1_001a"; "1_000a"; "7"]].

(** The two lithologies of the example model. *)
Definition ex_sand : litho_params Q :=
  {| litho_code := 1; litho_name := "Upper Sand";
     litho_colour := [255 / 255; 0 / 255; 0 / 255]%Q |}.
Definition ex_basalt : litho_params Q :=
  {| litho_code := 2; litho_name := "Basalt";
     litho_colour := [0 / 255; 51 / 255; 102 / 255]%Q |}.

(** The graph of the example model. *)
Definition ex_model : Graph Q :=
  match loadNetworkQ "ex" ex_g20 ex_vs ex_g23 with
  | OK G => G
  | Raise _ => nx_Graph "ex"
  end.


(** ** The classification in the words of the specification

    "At the first position where the two characters differ, take the
    larger of the two single-digit values, then stop scanning": the two
    codes are compared without their last characters. *)
Definition without_last (s : string) : list ascii :=
  removelast (list_ascii_of_string s).

Fixpoint first_difference (l1 l2 : list ascii) : option (ascii * ascii) :=
  match l1, l2 with
  | a :: l1', b :: l2' =>
      if bool_decide (a = b) then first_difference l1' l2' else Some (a, b)
  | _, _ => None
  end.

(** The class of the larger of two digits [d1] of [c1] and [d2] of [c2]. *)
Definition class_of_digits (c1 c2 : ascii) (d1 d2 : Z) : edge_class :=
  {| eCode := ECChr (if d1 <? d2 then c2 else c1);
     eType := edge_type_of_digit (Z.max d1 d2);
     eColour := edge_colour_of_digit (Z.max d1 d2) |}.

Definition first_difference_class (topoCode1 topoCode2 : string)
  : option edge_class :=
  match first_difference (without_last topoCode1) (without_last topoCode2) with
  | None => Some default_class
  | Some (c1, c2) =>
      d1 ← digit_val c1; d2 ← digit_val c2; Some (class_of_digits c1 c2 d1 d2)
  end.

(** ** Pruning in the words of the specification

    "Deleting every node (and all incident edges) whose volume is
    strictly less than threshold." *)
Definition below_volume {F : Type} (threshold : Z) (a : node_attr F) : bool :=
  match volume a with Some v => v <? threshold | None => false end.

Definition is_small {F : Type} (G : Graph F) (threshold : Z) (n : string) : bool :=
  match node G !! n with Some a => below_volume threshold a | None => false end.

Definition pruned {F : Type} (G : Graph F) (threshold : Z) : Graph F :=
  {| graph_name := graph_name G;
     node := filter (λ kv, ¬ below_volume threshold kv.2) (node G);
     edge := filter (λ kv, ¬ is_small G threshold kv.1.1
                           ∧ ¬ is_small G threshold kv.1.2) (edge G) |}.

(** Every node carries a volume, as after [loadNetwork]. *)
Definition has_volumes {F : Type} (G : Graph F) : Prop :=
  map_Forall (λ _ a, is_Some (volume a)) (node G).

#[global] Instance has_volumes_dec {F : Type} (G : Graph F) :
  Decision (has_volumes G).
Proof. unfold has_volumes. apply _. Defined.

(** ** The similarity in the words of the specification

    "The classic set-similarity ratio |edges(A) ∩ edges(B)| /
    |edges(A) ∪ edges(B)|", on the sets of unordered node pairs that
    carry an edge. *)
Definition edge_set {F : Type} (G : Graph F) : gset (string * string) :=
  dom (edge G).

Definition jaccard_index {F : Type} (A B : Graph F) : Q :=
  (Z.of_nat (size (edge_set A ∩ edge_set B))
   # Pos.of_nat (size (edge_set A ∪ edge_set B)))%Q.

(** The number of edges of [A] that [B] has too, as both loops over
    [A.edges_iter()] count them. *)
Definition shared {F : Type} (A B : Graph F) : nat :=
  length (filter (λ e, has_edge B e.1 e.2) (edges_iter A)).

(** ** Small graphs for closed examples *)

Definition plain_edge : edge_attr :=
  {| edgeCode := ECInt 0; edgeType := stratigraphic; edge_colour := "k";
     area := 1; weight := 1 |}.

(** One edge [a - b]. *)
Definition graph_ab : Graph Q := add_edge (nx_Graph "ab") "a" "b" plain_edge.

(** The path [a - b - c]. *)
Definition graph_abc : Graph Q :=
  add_edge (add_edge (nx_Graph "abc") "a" "b" plain_edge) "b" "c" plain_edge.

(** One edge [c - d]. *)
Definition graph_cd : Graph Q := add_edge (nx_Graph "cd") "d" "c" plain_edge.

(** ** A model file for closed examples *)
Definition fdiv_intQ (q : Q) (n : Z) : outcome Q :=
  if n =? 0 then Raises ZeroDivisionError else Returns (q / inject_Z n)%Q.
Definition load_model_infoQ :=
  load_model_info float_of_int_literal Qminus fdiv_intQ.
Definition ex_g00 : list string :=
  ["VERSION = 7.11
"; "UPPER SW CORNER (X Y Z) = 0 0 5000
"; "LOWER NE CORNER (X Y Z) = 10000 7000 0
"; "NUMBER OF LAYERS = 25
"; "LAYER 1 DIMENSIONS (X Y) = 50 35
"; "NUM ROCK TYPES = 3
"].

(** The vertex dictionary and the model information of the examples. *)
Definition ex_vertices : gmap string (vertex_params Q) :=
  match read_vertices float_of_int_literal ex_vs with
  | OK props => props
  | Raise _ => ∅
  end.
Definition ex_info : model_info Q :=
  {| nz := Some 25; nx := Some 50; ny := Some 35;
     xmin := Some 0%Q; ymin := Some 0%Q; zmax := Some 5000%Q;
     xmax := Some 10000%Q; ymax := Some 7000%Q; zmin := Some 0%Q;
     n_rocktypes := Some 3; n_total := Some 43750;
     extent_x := Some 10000%Q; extent_y := Some 7000%Q;
     extent_z := Some 5000%Q;
     delx := Some (10000 # 50)%Q; dely := Some (7000 # 35)%Q;
     delz := Some (5000 # 25)%Q |}.

(** ** What an edge-list line says

    The fields of a line of the [.g23] file as the loop body reads them:
    the two node identifiers [data[0]] and [data[1]], and the count
    [int(data[-1])]. *)
Definition line_ids (l : string) : option (string * string) :=
  let data := split TAB (rstrip l) in
  d0 ← data !! 0%nat; d1 ← data !! 1%nat; Some (d0, d1).

Definition line_count (l : string) : result Z :=
  list_get_neg (split TAB (rstrip l)) 1 ≫= py_int.

(** ** A lithology definition line in the words of the specification

    "First token = integer code, middle tokens (from index 2 up to the
    last 3) join to form the name, last 3 tokens are RGB channel values
    to be divided by 255": [p] is what the line [line] defines. The
    tokens are those of the code, the pieces of the stripped line
    between single spaces. *)
Definition definition_line {F : Type} (float_of_str : string → result F)
    (fdiv : F → F → F) (f255 : F) (line : string) (p : litho_params F) : Prop :=
  let l := split " " (strip line) in
  ∃ (t0 tr tg tb : string) (r g b : F),
    (3 ≤ length l)%nat
    ∧ l !! 0%nat = Some t0 ∧ py_int t0 = OK (litho_code p)
    ∧ litho_name p = join " " (drop 2 (take (length l - 3) l))
    ∧ l !! (length l - 3)%nat = Some tr ∧ float_of_str tr = OK r
    ∧ l !! (length l - 2)%nat = Some tg ∧ float_of_str tg = OK g
    ∧ l !! (length l - 1)%nat = Some tb ∧ float_of_str tb = OK b
    ∧ litho_colour p = [fdiv r f255; fdiv g f255; fdiv b f255].

(** The body of the loop over the definitions, on the line itself
    instead of its index. *)
Definition lithology_of_line {F : Type} (float_of_str : string → result F)
    (fdiv : F → F → F) (f255 : F)
    (props : gmap Z (litho_params F)) (line : string)
  : result (gmap Z (litho_params F)) :=
  params ← lithology_of_tokens float_of_str fdiv f255 (split " " (strip line));
  OK (<[litho_code params := params]> props).

(** ** A lithology definition line with whitespace-delimited tokens

    The tokens of a line as [str.split()] without a separator makes
    them: the maximal runs of characters that are no whitespace. *)
Fixpoint whitespace_tokens (s : string) : list string :=
  match s with
  | EmptyString => []
  | String c s' =>
      if py_isspace c then whitespace_tokens s'
      else match s' with
           | EmptyString => [String c EmptyString]
           | String c' _ =>
               if py_isspace c' then String c EmptyString :: whitespace_tokens s'
               else match whitespace_tokens s' with
                    | w :: ws => String c w :: ws
                    | [] => [String c EmptyString]
                    end
           end
  end.

(** "Each definition line is whitespace-delimited: first token = integer
    code, middle tokens (from index 2 up to the last 3) join to form the
    name, last 3 tokens are RGB channel values to be divided by 255":
    [definition_line] with the whitespace-delimited tokens in the place
    of the pieces between single spaces. *)
Definition whitespace_definition_line {F : Type}
    (float_of_str : string → result F) (fdiv : F → F → F) (f255 : F)
    (line : string) (p : litho_params F) : Prop :=
  let l := whitespace_tokens line in
  ∃ (t0 tr tg tb : string) (r g b : F),
    (3 ≤ length l)%nat
    ∧ l !! 0%nat = Some t0 ∧ py_int t0 = OK (litho_code p)
    ∧ litho_name p = join " " (drop 2 (take (length l - 3) l))
    ∧ l !! (length l - 3)%nat = Some tr ∧ float_of_str tr = OK r
    ∧ l !! (length l - 2)%nat = Some tg ∧ float_of_str tg = OK g
    ∧ l !! (length l - 1)%nat = Some tb ∧ float_of_str tb = OK b
    ∧ litho_colour p = [fdiv r f255; fdiv g f255; fdiv b f255].

(** Two definition lines of [ex_sand] and [ex_basalt] that whitespace
    delimits but single spaces do not: two spaces before the name, and
    tabs between the fields. *)
Definition ex_sand_two_spaces : string := "1 0  Upper Sand 255 0 0".
Definition ex_basalt_tabs : string :=
  String.concat (String TAB "") ["2"; "0"; "Basalt"; "0"; "51"; "102"].

(** ** The unique list

    Every later element of the list differs from every earlier one: its
    coefficient with the earlier one is a number other than 1. *)
Definition later_differs {F : Type} (uTopo : list (Graph F)) : Prop :=
  ∀ i j gi gj, (i < j)%nat → uTopo !! i = Some gi → uTopo !! j = Some gj →
    ∃ q, jaccard_coefficient gj gi = OK q ∧ Qeq_bool q 1 = false.

(** Both end points of every edge are nodes, as [add_edge] and
    [remove_node] keep it. *)
Definition graph_closed {F : Type} (G : Graph F) : Prop :=
  map_Forall (λ k _, is_Some (node G !! k.1) ∧ is_Some (node G !! k.2)) (edge G).

(** ** Resolved nodes and edge attributes *)

(** The colour of an edge type. *)
Definition colour_of_type (ty : edge_type) : string :=
  match ty with
  | stratigraphic => "k"
  | fault => "r"
  | unconformity => "b"
  | intrusive => "y"
  | unknown => "g"
  end.

(** The node dictionary entry of a resolved identifier. *)
Definition resolved_attr {F : Type} (lithoCode : string)
    (lpar : litho_params F) (vpar : vertex_params F) : node_attr F :=
  {| lithology := Some lithoCode; name := Some (litho_name lpar);
     colour := Some (litho_colour lpar);
     centroid := Some (vertex_centroid vpar);
     volume := Some (vertex_volume vpar) |}.

(** The node [id] is resolved: its attributes are those of the lithology
    and of the vertex that its identifier names. *)
Definition node_resolved {F : Type} (lithology_properties : gmap Z (litho_params F))
    (node_properties : gmap string (vertex_params F))
    (id : string) (a : node_attr F) : Prop :=
  ∃ lithoCode topoCode c lpar vpar,
    split "_" id !! 0%nat = Some lithoCode
    ∧ split "_" id !! 1%nat = Some topoCode
    ∧ py_int lithoCode = OK c
    ∧ lithology_properties !! c = Some lpar
    ∧ node_properties !! node_key c topoCode = Some vpar
    ∧ a = resolved_attr lithoCode lpar vpar.

(** The attributes of an edge that do not depend on the line: the weight
    is 1 and the colour is the colour of the type. *)
Definition edge_attr_ok (ea : edge_attr) : Prop :=
  weight ea = 1 ∧ edge_colour ea = colour_of_type (edgeType ea).

(** ** Identifiers and lookup keys *)

(** The key under which the builder looks the vertex of a node
    identifier up: ["%d_%s" % (int(lithoCode), topoCode)] for the first
    two pieces of the identifier between underscores. *)
Definition lookup_key (id : string) : result string :=
  topoCode ← list_get (split "_" id) 1;
  lithoCode ← list_get (split "_" id) 0;
  c ← py_int lithoCode;
  OK (node_key c topoCode).

(** [sep] does not occur in [s]. *)
Definition no_char (sep : ascii) (s : string) : Prop :=
  ∀ i, String.get i s ≠ Some sep.

(** ** Vertices *)

(** The [params] dictionary that the vertex loop builds from a marked
    line. *)
Definition vertex_of_line {F : Type} (float_of_str : string → result F)
    (l : string) : result (vertex_params F) :=
  let data := split " " l in
  x ← list_get data 2 ≫= float_of_str;
  y ← list_get data 3 ≫= float_of_str;
  z ← list_get data 4 ≫= float_of_str;
  litho ← list_get data 5 ≫= py_int;
  topo ← list_get data 6;
  vol ← list_get data 7 ≫= py_int;
  OK {| vertex_centroid := [x; y; z]; vertex_litho := litho;
        vertex_topo := topo; vertex_volume := vol |}.

(** The key of a vertex. *)
Definition vertex_key {F : Type} (p : vertex_params F) : string :=
  node_key (vertex_litho p) (vertex_topo p).

(** * Properties *)

(** ** Generic facts on the loops *)

Lemma for_each_app {A S : Type} (body : S → A → result S) (l1 l2 : list A) s :
  for_each body (l1 ++ l2) s = for_each body l1 s ≫= for_each body l2.
Proof.
  revert s. induction l1 as [|x l1 IH]; intros s; simpl; [done|].
  destruct (body s x) as [s'|e]; simpl; [apply IH | done].
Qed.

Lemma for_each_id {A S : Type} (body : S → A → result S) (l : list A) s :
  (∀ x, x ∈ l → body s x = OK s) → for_each body l s = OK s.
Proof.
  induction l as [|x l IH]; intros Hl; simpl; [done|].
  rewrite Hl by left. simpl. apply IH. intros y Hy. apply Hl. by right.
Qed.

Lemma for_each_total {A S : Type} (body : S → A → result S) (l : list A) s :
  (∀ s' x, x ∈ l → ∃ s'', body s' x = OK s'') → ∃ s', for_each body l s = OK s'.
Proof.
  revert s. induction l as [|x l IH]; intros s Hl; simpl; [by eexists|].
  destruct (Hl s x) as [s'' ->]; [by left|]. simpl.
  apply IH. intros s' y Hy. apply Hl. by right.
Qed.

(** ** Edge classification *)

Lemma int_of_char_digit (c : ascii) (d : Z) :
  digit_val c = Some d → int_of_char c = OK d.
Proof.
  destruct c as [[] [] [] [] [] [] [] []]; vm_compute; intros H;
    first [discriminate H | by injection H as <-].
Qed.

Lemma classify_at_same topoCode1 topoCode2 st i c :
  String.get i topoCode1 = Some c → String.get i topoCode2 = Some c →
  classify_at topoCode1 topoCode2 st i = OK st.
Proof.
  intros H1 H2. unfold classify_at, str_get. rewrite H1, H2. simpl.
  by rewrite bool_decide_false by naive_solver.
Qed.

Lemma classify_at_diff topoCode1 topoCode2 st i c1 c2 d1 d2 :
  String.get i topoCode1 = Some c1 → String.get i topoCode2 = Some c2 →
  c1 ≠ c2 → digit_val c1 = Some d1 → digit_val c2 = Some d2 →
  classify_at topoCode1 topoCode2 st i = OK (class_of_digits c1 c2 d1 d2).
Proof.
  intros H1 H2 Hne Hd1 Hd2. unfold classify_at, str_get. rewrite H1, H2. simpl.
  rewrite bool_decide_true by done.
  rewrite (int_of_char_digit _ _ Hd1), (int_of_char_digit _ _ Hd2). simpl.
  unfold class_of_digits. destruct (Z.ltb_spec d1 d2).
  - rewrite (int_of_char_digit _ _ Hd2). simpl. by rewrite Z.max_r by lia.
  - rewrite (int_of_char_digit _ _ Hd1). simpl. by rewrite Z.max_l by lia.
Qed.

Lemma get_is_Some (s : string) (i : nat) :
  (i < String.length s)%nat → is_Some (String.get i s).
Proof.
  revert i. induction s as [|c s IH]; intros i Hi; simpl in *; [lia|].
  destruct i; [by eexists|]. apply IH. lia.
Qed.

(** When the codes agree on every compared position the defaults stay. *)
Lemma classify_edge_no_difference topoCode1 topoCode2 :
  (∀ j, (j < String.length topoCode1 - 1)%nat →
        is_Some (String.get j topoCode2) ∧
        String.get j topoCode1 = String.get j topoCode2) →
  classify_edge topoCode1 topoCode2 = OK default_class.
Proof.
  intros H. apply for_each_id. intros j Hj.
  apply elem_of_seq in Hj. destruct (H j) as [[c Hc] Heq]; [lia|].
  apply classify_at_same with c; congruence.
Qed.

(** C1 (as amended): when the second code is long enough and the
    characters at the differing positions are digits, the class of an
    edge is decided by the LAST position [i], among the positions of the
    first code without its final character, at which the two codes
    differ: the code is the character with the larger digit there, and
    digit 0 is stratigraphic, 2, 7 and 8 fault, 3 unconformity,
    5 intrusive and every other digit unknown. *)
Theorem classify_edge_last_difference
    (topoCode1 topoCode2 : string) (i : nat) (c1 c2 : ascii) (d1 d2 : Z) :
  (String.length topoCode1 - 1 ≤ String.length topoCode2)%nat →
  (∀ j a b, (j < String.length topoCode1 - 1)%nat →
     String.get j topoCode1 = Some a → String.get j topoCode2 = Some b →
     a ≠ b → is_Some (digit_val a) ∧ is_Some (digit_val b)) →
  (i < String.length topoCode1 - 1)%nat →
  String.get i topoCode1 = Some c1 → String.get i topoCode2 = Some c2 →
  c1 ≠ c2 →
  (∀ j, (i < j < String.length topoCode1 - 1)%nat →
     String.get j topoCode1 = String.get j topoCode2) →
  digit_val c1 = Some d1 → digit_val c2 = Some d2 →
  classify_edge topoCode1 topoCode2
    = OK {| eCode := ECChr (if d1 <? d2 then c2 else c1);
            eType := edge_type_of_digit (Z.max d1 d2);
            eColour := edge_colour_of_digit (Z.max d1 d2) |}
  ∧ edge_type_of_digit <$> [0; 1; 2; 3; 4; 5; 6; 7; 8; 9]
    = [stratigraphic; unknown; fault; unconformity; unknown;
       intrusive; unknown; fault; fault; unknown].
Proof.
  intros Hlen Hdig Hi H1 H2 Hne Hafter Hd1 Hd2. split; [|reflexivity].
  unfold classify_edge.
  set (n := (String.length topoCode1 - 1)%nat) in *.
  replace (seq 0 n) with (seq 0 i ++ [i] ++ seq (S i) (n - S i))%list; last first.
  { change ([i] ++ seq (S i) (n - S i))%list with (seq i (S (n - S i))).
    rewrite <- seq_app. f_equal. lia. }
  rewrite !for_each_app.
  destruct (for_each_total (classify_at topoCode1 topoCode2) (seq 0 i)
              default_class) as [st ->].
  { intros s' j Hj. apply elem_of_seq in Hj.
    destruct (get_is_Some topoCode1 j) as [a Ha]; [lia|].
    destruct (get_is_Some topoCode2 j) as [b Hb]; [lia|].
    destruct (decide (a = b)) as [->|Hab].
    - exists s'. by apply classify_at_same with b.
    - destruct (Hdig j a b) as [[da Hda] [db Hdb]]; [lia|done..|].
      eexists. by apply classify_at_diff. }
  simpl.
  rewrite (classify_at_diff _ _ _ _ _ _ _ _ H1 H2 Hne Hd1 Hd2). simpl.
  apply for_each_id. intros j Hj. apply elem_of_seq in Hj.
  destruct (get_is_Some topoCode1 j) as [a Ha]; [lia|].
  apply classify_at_same with a; [done|]. rewrite <- Hafter by lia. done.
Qed.

Lemma classify_edge_last_difference_witness :
  classify_edge "012a" "035a"
    = OK {| eCode := ECChr "5"; eType := intrusive; eColour := "y" |}
  ∧ edge_type_of_digit <$> [0; 1; 2; 3; 4; 5; 6; 7; 8; 9]
    = [stratigraphic; unknown; fault; unconformity; unknown;
       intrusive; unknown; fault; fault; unknown].
Proof.
  apply (classify_edge_last_difference "012a" "035a" 2 "2" "5" 2 5).
  - simpl. lia.
  - intros [|[|[|j]]] a b Hj Ha Hb Hab; simpl in *;
      try lia; injection Ha as <-; injection Hb as <-;
      first [done | split; by eexists].
  - simpl. lia.
  - reflexivity.
  - reflexivity.
  - discriminate.
  - simpl. intros j Hj. lia.
  - reflexivity.
  - reflexivity.
Defined.

(** C1 (as stated) fails: on the codes [012a] and [035a] the first
    difference ([1] against [3]) gives digit 3, an unconformity, while
    the code goes on to the last difference ([2] against [5]) and
    returns digit 5, an intrusive contact. *)
Lemma classify_edge_not_first_difference :
  first_difference_class "012a" "035a"
    = Some {| eCode := ECChr "3"; eType := unconformity; eColour := "b" |}
  ∧ classify_edge "012a" "035a"
    = OK {| eCode := ECChr "5"; eType := intrusive; eColour := "y" |}
  ∧ ¬ (∀ topoCode1 topoCode2 c,
         classify_edge topoCode1 topoCode2 = OK c →
         first_difference_class topoCode1 topoCode2 = Some c).
Proof.
  split; [reflexivity|]. split; [reflexivity|].
  intros H. specialize (H "012a" "035a" _ eq_refl). discriminate H.
Qed.

(** ** Counting in dictionaries *)

Section MapFacts.
Context `{Countable K} {A : Type}.

Lemma length_filter_keys (P : K → Prop) (Q : K * A → Prop)
    `{!∀ x, Decision (P x)} `{!∀ x, Decision (Q x)} (l : list (K * A)) :
  (∀ kv, kv ∈ l → P kv.1 ↔ Q kv) →
  length (filter P l.*1) = length (filter Q l).
Proof.
  induction l as [|kv l IH]; intros Hl; [done|].
  rewrite fmap_cons, !filter_cons.
  assert (HPQ : P kv.1 ↔ Q kv) by (apply Hl; by left).
  assert (IH' : length (filter P l.*1) = length (filter Q l)).
  { apply IH. intros kv' Hkv'. apply Hl. by right. }
  repeat case_decide; simpl; try rewrite IH'; try done; tauto.
Qed.

Lemma size_filter_map_to_list (P : K * A → Prop)
    `{!∀ x, Decision (P x)} (m : gmap K A) :
  size (filter P m) = length (filter P (map_to_list m)).
Proof.
  rewrite <- length_map_to_list, map_filter_alt.
  apply Permutation_length, map_to_list_to_map.
  apply NoDup_fmap_fst.
  - intros k x y Hx Hy.
    apply list_elem_of_filter in Hx as [_ Hx], Hy as [_ Hy].
    apply elem_of_map_to_list in Hx, Hy. congruence.
  - apply NoDup_filter, NoDup_map_to_list.
Qed.

(** The keys of [m] that satisfy [P], counted on the list of keys. *)
Lemma length_filter_map_keys (P : K → Prop) `{!∀ x, Decision (P x)}
    (m : gmap K A) :
  length (filter P (map_to_list m).*1) = size (filter (λ kv, P kv.1) m).
Proof.
  rewrite size_filter_map_to_list. by apply length_filter_keys.
Qed.
End MapFacts.

(** ** Pruning by volume *)

Section Pruning.
Context {F : Type}.
Implicit Types (G : Graph F) (l : list string).

Lemma filter_step_keep (t : Z) G c n a v :
  node G !! n = Some a → volume a = Some v → t ≤ v →
  filter_step t (G, c) n = OK (G, c).
Proof.
  intros Hn Hv Hle. unfold filter_step, dict_get. rewrite Hn. simpl.
  rewrite Hv. simpl. destruct (Z.ltb_spec v t); [lia | done].
Qed.

Lemma filter_step_drop (t : Z) G c n a v :
  node G !! n = Some a → volume a = Some v → v < t →
  filter_step t (G, c) n
    = OK ({| graph_name := graph_name G;
             node := delete n (node G);
             edge := filter (λ kv, kv.1.1 ≠ n ∧ kv.1.2 ≠ n) (edge G) |},
          c + 1).
Proof.
  intros Hn Hv Hlt. unfold filter_step, dict_get, remove_node.
  rewrite Hn. simpl. rewrite Hv. simpl.
  destruct (Z.ltb_spec v t); [done | lia].
Qed.

(** The loop over a list [l] of distinct nodes that still are in the
    current graph [G] as they were in the graph [G0] the loop began
    with. *)
Lemma filter_loop (t : Z) (G0 : Graph F) l : ∀ G c,
  NoDup l →
  (∀ m, m ∈ l → node G !! m = node G0 !! m) →
  (∀ m a, m ∈ l → node G0 !! m = Some a → is_Some (volume a)) →
  (∀ m, m ∈ l → is_Some (node G0 !! m)) →
  ∃ G',
    for_each (filter_step t) l (G, c)
      = OK (G', c + Z.of_nat (length (filter (λ m, is_small G0 t m) l)))
    ∧ graph_name G' = graph_name G
    ∧ (∀ m, node G' !! m
            = if decide (m ∈ l ∧ is_small G0 t m) then None else node G !! m)
    ∧ (∀ k, edge G' !! k
            = if decide ((k.1 ∈ l ∧ is_small G0 t k.1)
                         ∨ (k.2 ∈ l ∧ is_small G0 t k.2))
              then None else edge G !! k).
Proof.
  induction l as [|n l IH]; intros G c Hnd Hsame Hvol Hin.
  { exists G. split; [simpl; by rewrite Z.add_0_r|split; [done|split]].
    - intros m. case_decide as H; [|done]. destruct H as [H _]. inversion H.
    - intros k. case_decide as H; [|done].
      destruct H as [[H _]|[H _]]; inversion H. }
  apply NoDup_cons in Hnd as [Hnl Hnd].
  destruct (Hin n) as [a Ha]; [by left|].
  destruct (Hvol n a) as [v Hv]; [by left|done|].
  assert (HGn : node G !! n = Some a) by (rewrite Hsame; [done | by left]).
  assert (Hsmall : is_small G0 t n = (v <? t)).
  { unfold is_small, below_volume. by rewrite Ha, Hv. }
  cbn [for_each]. rewrite filter_cons.
  destruct (Z.ltb_spec v t) as [Hlt|Hge].
  - rewrite (filter_step_drop t G c n a v) by done. cbn [mbind result_bind].
    set (G1 := {| graph_name := graph_name G; node := delete n (node G);
                  edge := filter (λ kv, kv.1.1 ≠ n ∧ kv.1.2 ≠ n) (edge G) |}).
    destruct (IH G1 (c + 1) Hnd) as (G' & Hrun & Hname & Hnode & Hedge).
    { intros m Hm. cbn [node G1]. rewrite lookup_delete_ne by (intros ->; done).
      apply Hsame. by right. }
    { intros m b Hm. apply Hvol. by right. }
    { intros m Hm. apply Hin. by right. }
    assert (Hn : Is_true (is_small G0 t n)) by (by rewrite Hsmall).
    exists G'. split; [|split; [done|split]].
    + rewrite Hrun. rewrite decide_True by done.
      cbn [length]. do 2 f_equal. lia.
    + intros m. rewrite Hnode. cbn [node G1].
      destruct (decide (m = n)) as [->|Hmn].
      * rewrite lookup_delete_eq.
        destruct (decide (n ∈ n :: l ∧ is_small G0 t n)) as [_|H].
        -- by case_decide.
        -- exfalso. apply H. split; [by left | done].
      * rewrite lookup_delete_ne by done.
        destruct (decide (m ∈ l ∧ is_small G0 t m)) as [[H1 H2]|H].
        -- rewrite decide_True; [done|]. split; [by right | done].
        -- rewrite decide_False; [done|]. intros [H1 H2]. apply H.
           apply elem_of_cons in H1 as [?|?]; [done|]. by split.
    + intros k. rewrite Hedge. cbn [edge G1].
      destruct (decide (k.1 = n ∨ k.2 = n)) as [Hk|Hk].
      * rewrite (proj2 (map_lookup_filter_None _ _ _)); last first.
        { right. intros x _ [? ?]. destruct Hk; done. }
        destruct (decide ((k.1 ∈ n :: l ∧ is_small G0 t k.1)
                          ∨ (k.2 ∈ n :: l ∧ is_small G0 t k.2))) as [_|H].
        -- by case_decide.
        -- exfalso. apply H.
           destruct Hk as [Hk|Hk]; rewrite Hk; [left | right];
             (split; [by left | done]).
      * assert (filter (λ kv : string * string * edge_attr,
                   kv.1.1 ≠ n ∧ kv.1.2 ≠ n) (edge G) !! k = edge G !! k) as ->.
        { destruct (edge G !! k) as [x|] eqn:E.
          - apply map_lookup_filter_Some. split; [done|]. cbn. split; intros ?; apply Hk; auto.
          - apply map_lookup_filter_None. by left. }
        destruct (decide ((k.1 ∈ l ∧ is_small G0 t k.1)
                          ∨ (k.2 ∈ l ∧ is_small G0 t k.2))) as [H|H].
        -- rewrite decide_True; [done|].
           destruct H as [[H1 H2]|[H1 H2]]; [left|right]; (split; [by right|done]).
        -- rewrite decide_False; [done|]. intros H'. apply H.
           destruct H' as [[H1 H2]|[H1 H2]]; [left|right];
             (split; [|done]); apply elem_of_cons in H1 as [H1|H1]; try done;
             exfalso; apply Hk; auto.
  - rewrite (filter_step_keep t G c n a v) by done. cbn [mbind result_bind].
    destruct (IH G c Hnd) as (G' & Hrun & Hname & Hnode & Hedge).
    { intros m Hm. apply Hsame. by right. }
    { intros m b Hm. apply Hvol. by right. }
    { intros m Hm. apply Hin. by right. }
    assert (Hn : ¬ Is_true (is_small G0 t n)).
    { rewrite Hsmall. destruct (Z.ltb_spec v t); [lia | by intros ?]. }
    exists G'. split; [|split; [done|split]].
    + rewrite Hrun. by rewrite decide_False.
    + intros m. rewrite Hnode.
      destruct (decide (m ∈ l ∧ is_small G0 t m)) as [[H1 H2]|H].
      * rewrite decide_True; [done|]. split; [by right | done].
      * rewrite decide_False; [done|]. intros [H1 H2]. apply H.
        apply elem_of_cons in H1 as [->|?]; [done|]. by split.
    + intros k. rewrite Hedge.
      destruct (decide ((k.1 ∈ l ∧ is_small G0 t k.1)
                        ∨ (k.2 ∈ l ∧ is_small G0 t k.2))) as [H|H].
      * rewrite decide_True; [done|].
        destruct H as [[H1 H2]|[H1 H2]]; [left|right]; (split; [by right|done]).
      * rewrite decide_False; [done|]. intros H'. apply H.
        destruct H' as [[H1 H2]|[H1 H2]]; [left|right];
          (split; [|done]); apply elem_of_cons in H1 as [H1|H1]; try done;
          rewrite H1 in H2; done.
Qed.

Lemma elem_of_nodes G m : m ∈ nodes G ↔ is_Some (node G !! m).
Proof.
  unfold nodes. rewrite list_elem_of_fmap. split.
  - intros [[k a] [-> H]]. apply elem_of_map_to_list in H. by eexists.
  - intros [a H]. exists (m, a). split; [done|]. by apply elem_of_map_to_list.
Qed.

Lemma is_small_elem_of G (t : Z) m : is_small G t m → m ∈ nodes G.
Proof.
  unfold is_small. intros H. apply elem_of_nodes.
  destruct (node G !! m); [by eexists | done].
Qed.

Lemma count_small G (t : Z) :
  length (filter (λ m, is_small G t m) (nodes G))
  = size (filter (λ kv, below_volume t kv.2) (node G)).
Proof.
  rewrite size_filter_map_to_list. unfold nodes.
  apply length_filter_keys. intros [k a] H.
  apply elem_of_map_to_list in H. unfold is_small. simpl. by rewrite H.
Qed.

Lemma pruned_node G (t : Z) m :
  node (pruned G t) !! m
  = a ← node G !! m; if below_volume t a then None else Some a.
Proof.
  simpl. destruct (node G !! m) as [a|] eqn:E; simpl.
  - destruct (below_volume t a) eqn:B.
    + apply map_lookup_filter_None. right. intros a' Ha'. simpl.
      assert (a' = a) as -> by congruence. rewrite B. naive_solver.
    + apply map_lookup_filter_Some. simpl. rewrite B. naive_solver.
  - apply map_lookup_filter_None. by left.
Qed.

(** C5: on a graph whose nodes all carry a volume,
    [filter_node_volumes(threshold)] returns normally, leaves exactly
    the nodes whose volume is not below the threshold and exactly the
    edges between them, returns the number of nodes whose volume is
    below the threshold, and a second call with the same threshold
    changes nothing and returns 0. *)
Theorem filter_node_volumes_exact G (threshold : Z) :
  has_volumes G →
  filter_node_volumes G threshold
    = OK (pruned G threshold,
          Z.of_nat (size (filter (λ kv, below_volume threshold kv.2) (node G))))
  ∧ (∀ n, node (pruned G threshold) !! n
          = a ← node G !! n; if below_volume threshold a then None else Some a)
  ∧ (∀ u v, edge (pruned G threshold) !! (u, v)
            = if is_small G threshold u || is_small G threshold v then None
              else edge G !! (u, v))
  ∧ filter_node_volumes (pruned G threshold) threshold
    = OK (pruned G threshold, 0).
Proof.
  intros Hvol. split; [|split; [apply pruned_node|split]].
  - unfold filter_node_volumes.
    destruct (filter_loop threshold G (nodes G) G 0)
      as (G' & Hrun & Hname & Hnode & Hedge).
    { apply NoDup_fst_map_to_list. }
    { done. }
    { intros m a _ Hm. by apply (Hvol m a). }
    { intros m. apply elem_of_nodes. }
    rewrite Hrun, Z.add_0_l, count_small. do 2 f_equal.
    destruct G' as [nm' nd' ed']. simpl in *. unfold pruned. f_equal.
    + done.
    + apply map_eq. intros m. rewrite Hnode.
      change (filter _ (node G) !! m) with (node (pruned G threshold) !! m).
      rewrite pruned_node.
      destruct (decide (m ∈ nodes G ∧ is_small G threshold m)) as [[_ H]|H].
      * unfold is_small in H. destruct (node G !! m) as [a|]; [|done].
        cbn. by destruct (below_volume threshold a).
      * destruct (node G !! m) as [a|] eqn:E; [|done]. cbn.
        destruct (below_volume threshold a) eqn:B; [|done].
        exfalso. apply H. split; [apply elem_of_nodes; by eexists|].
        unfold is_small. by rewrite E, B.
    + apply map_eq. intros k. rewrite Hedge. symmetry.
      destruct (decide ((k.1 ∈ nodes G ∧ is_small G threshold k.1)
                        ∨ (k.2 ∈ nodes G ∧ is_small G threshold k.2)))
        as [H|H].
      * apply map_lookup_filter_None. right. intros x' _ [Ha Hb].
        destruct H as [[_ ?]|[_ ?]]; done.
      * destruct (edge G !! k) as [x|] eqn:E.
        -- apply map_lookup_filter_Some. split; [done|].
           split; intros Hs; apply H; [left|right];
             (split; [by apply is_small_elem_of with threshold | done]).
        -- apply map_lookup_filter_None. by left.
  - intros u v. simpl.
    destruct (edge G !! (u, v)) as [x|] eqn:E.
    + destruct (is_small G threshold u) eqn:Hu; simpl.
      { apply map_lookup_filter_None. right. intros x' _ [Ha _].
        apply Ha. simpl. by rewrite Hu. }
      destruct (is_small G threshold v) eqn:Hv; simpl.
      { apply map_lookup_filter_None. right. intros x' _ [_ Hb].
        apply Hb. simpl. by rewrite Hv. }
      apply map_lookup_filter_Some. simpl. rewrite Hu, Hv.
      split; [done|]. split; by intros ?.
    + rewrite (proj2 (map_lookup_filter_None _ _ _)) by (by left).
      by destruct (_ || _).
  - unfold filter_node_volumes. apply for_each_id. intros m Hm.
    apply elem_of_nodes in Hm as [a Ha].
    pose proof Ha as Ha'. rewrite pruned_node in Ha'.
    destruct (node G !! m) as [a0|] eqn:E; simpl in Ha'; [|done].
    destruct (below_volume threshold a0) eqn:B; [done|].
    injection Ha' as <-.
    destruct (Hvol m a0 E) as [v Hv].
    apply filter_step_keep with a0 v; [done..|].
    unfold below_volume in B. rewrite Hv in B.
    destruct (Z.ltb_spec v threshold); [done | lia].
Qed.
End Pruning.

(** ** Similarity of two graphs *)

Lemma truediv_is_one (a b : Z) :
  0 < b →
  ∃ q, truediv a b = OK q ∧ (Qeq_bool q 1 = true ↔ a = b).
Proof.
  intros Hb. unfold truediv. destruct (Z.eqb_spec b 0) as [->|_]; [lia|].
  eexists. split; [done|]. unfold Qeq_bool. simpl.
  rewrite Z2Pos.id by done. rewrite Z.eqb_eq. lia.
Qed.

Section Similarity.
Context {F : Type}.
Implicit Types (A B G : Graph F).

Lemma jaccard_fold B (l : list (string * string)) : ∀ i u,
  foldl (jaccard_step B) (i, u) l
  = (i + Z.of_nat (length (filter (λ e, has_edge B e.1 e.2) l)),
     u + Z.of_nat (length l)
       - Z.of_nat (length (filter (λ e, has_edge B e.1 e.2) l))).
Proof.
  induction l as [|e l IH]; intros i u; cbn [foldl].
  { cbn. f_equal; lia. }
  unfold jaccard_step at 2.
  destruct (has_edge B e.1 e.2) eqn:E.
  - rewrite filter_cons_True by (by rewrite E).
    rewrite IH. cbn [length]. f_equal; lia.
  - rewrite filter_cons_False by (rewrite E; by intros ?).
    rewrite IH. cbn [length]. f_equal; lia.
Qed.

Lemma length_edges_iter G : length (edges_iter G) = size (edge G).
Proof. unfold edges_iter. by rewrite length_fmap, length_map_to_list. Qed.

Lemma shared_le A B : (shared A B ≤ size (edge A))%nat.
Proof. unfold shared. rewrite <- length_edges_iter. apply length_filter. Qed.

(** The quotient the code forms: the shared edges over the edges of
    [A] counted once plus the edges of [A] that [B] lacks. *)
Lemma jaccard_coefficient_eq A B :
  jaccard_coefficient A B
  = truediv (Z.of_nat (shared A B))
            (Z.of_nat (size (edge A))
             + (Z.of_nat (size (edge A)) - Z.of_nat (shared A B))).
Proof.
  unfold jaccard_coefficient. rewrite jaccard_fold.
  unfold number_of_edges, shared. rewrite length_edges_iter.
  f_equal; lia.
Qed.

Lemma calculate_overlap_eq A B : calculate_overlap A B = Z.of_nat (shared A B).
Proof.
  unfold calculate_overlap, shared.
  generalize (edges_iter A). intros l.
  enough (∀ z, foldl (λ similarity e,
                 if has_edge B e.1 e.2 then similarity + 1 else similarity)
               z l
             = z + Z.of_nat (length (filter (λ e, has_edge B e.1 e.2) l)))
    as Hz by (rewrite Hz; lia).
  induction l as [|e l IH]; intros z; cbn [foldl]; [cbn; lia|].
  rewrite IH.
  destruct (has_edge B e.1 e.2) eqn:E.
  - rewrite filter_cons_True by (by rewrite E). cbn [length]. lia.
  - by rewrite filter_cons_False by (rewrite E; by intros ?).
Qed.

Lemma has_edge_stored A B (k : string * string) :
  graph_wf A → is_Some (edge A !! k) →
  has_edge B k.1 k.2 ↔ k ∈ edge_set B.
Proof.
  intros Hwf [x Hx]. unfold has_edge, edge_set.
  rewrite (Hwf k x Hx). rewrite elem_of_dom. apply bool_decide_spec.
Qed.

Lemma shared_edge_set A B :
  graph_wf A → shared A B = size (edge_set A ∩ edge_set B).
Proof.
  intros Hwf. unfold shared, edges_iter.
  rewrite (length_filter_map_keys (λ e, Is_true (has_edge B e.1 e.2))).
  rewrite <- size_dom. f_equal. apply set_eq. intros k.
  rewrite elem_of_dom, elem_of_intersection. unfold edge_set at 1.
  rewrite elem_of_dom. split.
  - intros [x [Hx Hk]%map_lookup_filter_Some]. simpl in Hk. split; [by eexists|].
    apply (has_edge_stored A); [done | by eexists | done].
  - intros [[x Hx] Hk]. exists x. apply map_lookup_filter_Some. split; [done|].
    simpl. apply (has_edge_stored A); [done | by eexists | done].
Qed.

Lemma shared_all_iff A B :
  graph_wf A → shared A B = size (edge A) ↔ edge_set A ⊆ edge_set B.
Proof.
  intros Hwf. rewrite shared_edge_set by done.
  unfold edge_set at 3. rewrite <- (size_dom (edge A)).
  fold (edge_set A). split.
  - intros Hsz.
    assert (edge_set A ∩ edge_set B = edge_set A) as <-.
    { apply set_subseteq_size_eq; [apply intersection_subseteq_l | lia]. }
    apply intersection_subseteq_r.
  - intros Hsub. f_equal. by apply subseteq_intersection_1_L.
Qed.
End Similarity.

(** ** Stored edge keys *)

Lemma edge_key_comm (u v : string) : edge_key u v = edge_key v u.
Proof.
  unfold edge_key.
  destruct (String.leb u v) eqn:Euv, (String.leb v u) eqn:Evu; try done.
  - by rewrite (String.leb_antisym u v Euv Evu).
  - destruct (String.leb_total u v); congruence.
Qed.

Lemma edge_key_idemp (u v : string) :
  edge_key (edge_key u v).1 (edge_key u v).2 = edge_key u v.
Proof.
  unfold edge_key at 2 3 4. destruct (String.leb u v) eqn:Euv; simpl.
  - unfold edge_key. by rewrite Euv.
  - unfold edge_key.
    destruct (String.leb_total u v) as [?| ->]; [congruence | done].
Qed.

Section Wellformed.
Context {F : Type}.
Implicit Types (G : Graph F).

Lemma nx_Graph_wf (basename : string) : graph_wf (@nx_Graph F basename).
Proof. apply map_Forall_empty. Qed.

Lemma add_node_wf G n l nm : graph_wf G → graph_wf (add_node G n l nm).
Proof. done. Qed.

Lemma set_node_attr_wf G G' n upd :
  graph_wf G → set_node_attr G n upd = OK G' → graph_wf G'.
Proof.
  unfold set_node_attr, dict_get. intros Hwf.
  destruct (node G !! n); simpl; [|done]. by intros [= <-].
Qed.

Lemma add_edge_wf G u v a : graph_wf G → graph_wf (add_edge G u v a).
Proof.
  intros Hwf. unfold graph_wf, add_edge. simpl.
  apply map_Forall_insert_2; [apply edge_key_idemp | done].
Qed.

Lemma remove_node_wf G G' n :
  graph_wf G → remove_node G n = OK G' → graph_wf G'.
Proof.
  unfold remove_node. intros Hwf. destruct (node G !! n); [|done].
  intros [= <-]. unfold graph_wf. simpl.
  intros k x [Hx _]%map_lookup_filter_Some. by apply (Hwf k x).
Qed.

Lemma has_edge_comm G u v : has_edge G u v = has_edge G v u.
Proof. unfold has_edge. by rewrite edge_key_comm. Qed.
End Wellformed.

(** ** The comparison operations *)

Section ComparisonFacts.
Context {F : Type}.
Implicit Types (A B G : Graph F).

Lemma edge_nonempty_size G : edge G ≠ ∅ → (0 < size (edge G))%nat.
Proof.
  intros Hne. destruct (size (edge G)) eqn:E; [|lia].
  by apply map_size_empty_inv in E.
Qed.

(** On a graph with an edge the coefficient is a number, and it is 1
    exactly when all edges of [A] are edges of [B]. *)
Lemma jaccard_coefficient_one_iff A B :
  graph_wf A → edge A ≠ ∅ →
  ∃ q, jaccard_coefficient A B = OK q
       ∧ (Qeq_bool q 1 = true ↔ edge_set A ⊆ edge_set B).
Proof.
  intros Hwf Hne. rewrite jaccard_coefficient_eq.
  pose proof (edge_nonempty_size A Hne) as Hpos.
  pose proof (shared_le A B) as Hle.
  destruct (truediv_is_one (Z.of_nat (shared A B))
              (Z.of_nat (size (edge A))
               + (Z.of_nat (size (edge A)) - Z.of_nat (shared A B))))
    as (q & Hq & Hone); [lia|].
  exists q. split; [done|]. rewrite Hone, <- shared_all_iff by done. lia.
Qed.

(** The coefficient lies between 0 and 1. *)
Lemma jaccard_coefficient_range A B :
  edge A ≠ ∅ →
  ∃ q, jaccard_coefficient A B = OK q ∧ (0 <= q)%Q ∧ (q <= 1)%Q.
Proof.
  intros Hne. rewrite jaccard_coefficient_eq.
  pose proof (edge_nonempty_size A Hne) as Hpos.
  pose proof (shared_le A B) as Hle.
  unfold truediv.
  destruct (Z.eqb_spec
              (Z.of_nat (size (edge A))
               + (Z.of_nat (size (edge A)) - Z.of_nat (shared A B))) 0);
    [lia|].
  eexists. split; [done|]. unfold Qle. simpl.
  rewrite Z2Pos.id by lia. lia.
Qed.

(** C6: on well-formed graphs [calculate_overlap] is symmetric, and
    its value is the number of unordered node pairs that carry an edge
    in both graphs. *)
Theorem calculate_overlap_symmetric A B :
  graph_wf A → graph_wf B →
  calculate_overlap A B = calculate_overlap B A
  ∧ calculate_overlap A B = Z.of_nat (size (edge_set A ∩ edge_set B)).
Proof.
  intros HA HB. rewrite !calculate_overlap_eq, !shared_edge_set by done.
  split; [|done]. do 2 f_equal. apply (comm_L (∩)).
Qed.

(** C7: the coefficient of a well-formed graph with itself is 1 when
    the graph has an edge, and the call raises [ZeroDivisionError]
    when it has none. *)
Theorem jaccard_coefficient_self G :
  graph_wf G →
  match jaccard_coefficient G G with
  | OK q => edge G ≠ ∅ ∧ (q == 1)%Q
  | Raise e => edge G = ∅ ∧ e = ZeroDivisionError
  end.
Proof.
  intros Hwf. destruct (decide (edge G = ∅)) as [HE|Hne].
  - unfold jaccard_coefficient, number_of_edges, edges_iter.
    rewrite HE. by rewrite map_to_list_empty.
  - destruct (jaccard_coefficient_one_iff G G Hwf Hne) as (q & -> & Hone).
    split; [done|]. apply Qeq_bool_iff, Hone. done.
Qed.

(** C3: a graph without edges makes [jaccard_coefficient] raise
    [ZeroDivisionError], whatever the other graph, and so do
    [is_unique] and [find_matching] as soon as the known list is not
    empty; [calculate_overlap] returns 0. *)
Theorem jaccard_coefficient_empty_raises
    (name1 : string) (nodes1 : gmap string (node_attr F)) B known :
  let E := MkGraph name1 nodes1 ∅ in
  jaccard_coefficient E B = Raise ZeroDivisionError
  ∧ is_unique E (B :: known) = Raise ZeroDivisionError
  ∧ find_matching E (B :: known) = Raise ZeroDivisionError
  ∧ calculate_overlap E B = 0.
Proof.
  intros E.
  assert (HE : jaccard_coefficient E B = Raise ZeroDivisionError).
  { unfold jaccard_coefficient, number_of_edges, edges_iter, E. simpl.
    by rewrite map_to_list_empty. }
  split; [done|]. cbn [is_unique find_matching]. rewrite HE.
  split; [done|]. split; [done|].
  unfold calculate_overlap, edges_iter, E. simpl.
  by rewrite map_to_list_empty.
Qed.

(** The calls of [jaccard_coefficient] follow the known list from its
    first element. *)
Lemma jaccard_calls_prefix G (known : list (Graph F)) :
  jaccard_calls G known `prefix_of` known.
Proof.
  induction known as [|g known IH]; [done|]. cbn [jaccard_calls].
  destruct (jaccard_coefficient G g) as [q|e].
  - destruct (Qeq_bool q 1).
    + apply prefix_cons, prefix_nil.
    + by apply prefix_cons.
  - apply prefix_cons, prefix_nil.
Qed.

(** C10: with an empty known list [is_unique] returns [True] and
    [find_matching] returns [None], and no coefficient is evaluated. *)
Theorem empty_known_list (candidate : Graph F) :
  is_unique candidate [] = OK true
  ∧ find_matching candidate [] = OK None
  ∧ jaccard_calls candidate [] = [].
Proof. done. Qed.
End ComparisonFacts.

(** ** Reduction of an ensemble *)

Section Ensemble.
Context {F : Type}.
Implicit Types (t : Graph F) (uTopo : list (Graph F)) (f : list Z).

Lemma is_unique_true t uTopo :
  is_unique t uTopo = OK true →
  ∀ g, g ∈ uTopo →
    ∃ q, jaccard_coefficient t g = OK q ∧ Qeq_bool q 1 = false.
Proof.
  induction uTopo as [|g0 uTopo IH]; intros H g Hg; [inversion Hg|].
  cbn [is_unique] in H.
  destruct (jaccard_coefficient t g0) as [q|] eqn:E;
    cbn [mbind result_bind] in H; [|done].
  destruct (Qeq_bool q 1) eqn:Eq; [done|].
  apply elem_of_cons in Hg as [->|Hg]; [by exists q | by apply IH].
Qed.

Lemma later_differs_snoc t uTopo :
  later_differs uTopo → is_unique t uTopo = OK true →
  later_differs (uTopo ++ [t]).
Proof.
  intros Hu Ht i j gi gj Hij Hi Hj.
  assert (Hjlen : (j < length (uTopo ++ [t]))%nat) by (by eapply lookup_lt_Some).
  rewrite length_app in Hjlen. cbn in Hjlen.
  rewrite lookup_app_l in Hi by lia.
  destruct (decide (j < length uTopo)%nat) as [Hlt|Hge].
  - rewrite lookup_app_l in Hj by done. by apply (Hu i j).
  - rewrite lookup_app_r in Hj by lia.
    replace (j - length uTopo)%nat with 0%nat in Hj by lia.
    injection Hj as <-. apply (is_unique_true t uTopo Ht).
    by eapply list_elem_of_lookup_2.
Qed.

(** The loop of [calculate_unique_topologies] from the state
    [(uTopo, f)], when it ends normally: one line is written for each
    input, the lines do not decrease, they lie between the lengths of
    the unique list before and after, and the unique list grows by at
    most one graph an input and keeps [later_differs]. *)
Lemma unique_loop_inv (output : string) (l : list (Graph F)) :
  ∀ uTopo f uTopo' f',
    for_each (unique_step (Some output)) l (uTopo, f) = OK (uTopo', f') →
    ∃ vals,
      f' = (f ++ vals)%list
      ∧ length vals = length l
      ∧ StronglySorted Z.le vals
      ∧ Forall (λ x, Z.of_nat (length uTopo) ≤ x ≤ Z.of_nat (length uTopo')) vals
      ∧ (length uTopo ≤ length uTopo' ≤ length uTopo + length l)%nat
      ∧ (l ≠ [] → last vals = Some (Z.of_nat (length uTopo')))
      ∧ (later_differs uTopo → later_differs uTopo').
Proof.
  induction l as [|t l IH]; intros uTopo f uTopo' f' H; cbn [for_each] in H.
  { injection H as <- <-. exists []. rewrite app_nil_r.
    repeat split; try done; try constructor; cbn; lia. }
  unfold unique_step at 2 in H.
  destruct (is_unique t uTopo) as [u|] eqn:Eu;
    cbn [mbind result_bind] in H; [|done].
  set (u1 := if u then (uTopo ++ [t])%list else uTopo) in *.
  destruct (IH _ _ _ _ H)
    as (vals & -> & Hlen & Hsorted & Hbound & Hsize & Hlast & Hdiff).
  assert (Hu1 : (length uTopo ≤ length u1 ≤ length uTopo + 1)%nat).
  { unfold u1. destruct u; [rewrite length_app; cbn|]; lia. }
  exists (Z.of_nat (length u1) :: vals).
  split; [by rewrite <- app_assoc|].
  split; [cbn; lia|].
  split.
  { constructor; [done|]. eapply Forall_impl; [exact Hbound|]. cbn. lia. }
  split.
  { constructor; [lia|]. eapply Forall_impl; [exact Hbound|]. cbn. lia. }
  split; [cbn [length]; lia|].
  split.
  { intros _. destruct l as [|t' l'].
    - destruct vals; [|done]. cbn [for_each] in H. injection H as <- _. done.
    - rewrite last_cons. by rewrite Hlast. }
  intros Hu. apply Hdiff. unfold u1. destruct u; [|done].
  by apply later_differs_snoc.
Qed.

(** X19: when [calculate_unique_topologies] returns with an output
    file, it has written one progress number for each input graph, the
    numbers never decrease, the last one is the number of unique graphs
    and at most the number of inputs, and every unique graph has a
    coefficient other than 1 with every unique graph before it. *)
Lemma calculate_unique_topologies_progress
    (output : string) (topology_list uTopo : list (Graph F)) (f : list Z) :
  calculate_unique_topologies topology_list (Some output) = OK (uTopo, f) →
  length f = length topology_list
  ∧ StronglySorted Z.le f
  ∧ (∀ x, last f = Some x →
          x = Z.of_nat (length uTopo) ∧ x ≤ Z.of_nat (length topology_list))
  ∧ later_differs uTopo.
Proof.
  unfold calculate_unique_topologies. intros H.
  destruct (unique_loop_inv output topology_list [] [] uTopo f H)
    as (vals & -> & Hlen & Hsorted & _ & Hsize & Hlast & Hdiff).
  cbn in Hsize. split; [done|]. split; [done|]. split.
  - intros x Hx. cbn in Hx. destruct topology_list as [|t l].
    + destruct vals; [done | discriminate Hlen].
    + rewrite Hlast in Hx by done. injection Hx as <-. split; [done | lia].
  - apply Hdiff. intros i j gi gj _ Hi. by rewrite lookup_nil in Hi.
Qed.
End Ensemble.

(** ** The graph builder *)

(** Case analysis on the first computation of a successful sequence. *)
Ltac inv_bind H :=
  repeat match type of H with
  | mbind _ ?m = OK _ =>
      let E := fresh "E" in
      destruct m eqn:E; cbn [mbind result_bind] in H; [|discriminate H]
  | fmap _ ?m = OK _ =>
      let E := fresh "E" in
      destruct m eqn:E; cbn [fmap result_fmap] in H; [|discriminate H]
  end.

Lemma list_get_OK {A : Type} (l : list A) (i : nat) (x : A) :
  list_get l i = OK x ↔ l !! i = Some x.
Proof.
  unfold list_get. destruct (l !! i); split; intros H;
    first [by injection H as -> | done].
Qed.

Section BuilderFacts.
Context {F : Type}.
Variable lithology_properties : gmap Z (litho_params F).
Variable node_properties : gmap string (vertex_params F).
Implicit Types (G : Graph F).

Lemma set_node_attr_inv G G' n upd :
  set_node_attr G n upd = OK G' →
  ∃ a, node G !! n = Some a
       ∧ G' = {| graph_name := graph_name G;
                 node := <[n := upd a]> (node G);
                 edge := edge G |}.
Proof.
  unfold set_node_attr, dict_get. intros H.
  destruct (node G !! n) as [a|]; [|done]. cbn in H. injection H as <-.
  by exists a.
Qed.

(** [load_node] adds the node [id] with a volume, and changes neither
    the other nodes nor the edges. *)
Lemma load_node_inv G G' id lithoCode topoCode :
  load_node lithology_properties node_properties G id lithoCode topoCode
    = OK G' →
  edge G' = edge G
  ∧ (∃ a, node G' !! id = Some a ∧ is_Some (volume a))
  ∧ (∀ m, m ≠ id → node G' !! m = node G !! m).
Proof.
  unfold load_node. intros H.
  destruct (c ← py_int lithoCode;
            litho_name <$> dict_get lithology_properties c) as [nm|] eqn:E1;
    cbn [mbind result_bind] in H; [|done].
  destruct (c ← py_int lithoCode;
            litho_colour <$> dict_get lithology_properties c) as [col|] eqn:E2;
    cbn [mbind result_bind] in H; [|done].
  destruct (set_node_attr (add_node G id lithoCode nm) id _) as [Ga|] eqn:Ea;
    cbn [mbind result_bind] in H; [|done].
  destruct (c ← py_int lithoCode;
            vertex_centroid <$> dict_get node_properties (node_key c topoCode))
    as [cen|] eqn:E3; cbn [mbind result_bind] in H; [|done].
  destruct (set_node_attr Ga id _) as [Gb|] eqn:Eb;
    cbn [mbind result_bind] in H; [|done].
  destruct (c ← py_int lithoCode;
            vertex_volume <$> dict_get node_properties (node_key c topoCode))
    as [vol|] eqn:E4; cbn [mbind result_bind] in H; [|done].
  apply set_node_attr_inv in Ea as (a1 & _ & ->).
  apply set_node_attr_inv in Eb as (a2 & _ & ->).
  apply set_node_attr_inv in H as (a3 & _ & ->).
  cbn [node edge add_node]. split; [done|]. split.
  - eexists. rewrite lookup_insert_eq. split; [done|]. by eexists.
  - intros m Hm. by rewrite !lookup_insert_ne.
Qed.

Lemma ensure_node_lookup (nodes : gmap string (node_attr F)) n m :
  is_Some (nodes !! n) → ensure_node n nodes !! m = nodes !! m.
Proof. unfold ensure_node. by intros [a ->]. Qed.

(** One line of the edge list: both identifiers become nodes with a
    volume, and their edge is set, with the count of the line as area. *)
Lemma load_edge_inv G G' (l : string) :
  load_edge lithology_properties node_properties G l = OK G' →
  ∃ u v n ea,
    line_ids l = Some (u, v) ∧ line_count l = OK n ∧ area ea = n
    ∧ edge G' = <[edge_key u v := ea]> (edge G)
    ∧ (∀ m, is_Some (node G' !! m) ↔ m = u ∨ m = v ∨ is_Some (node G !! m))
    ∧ (∀ m a, node G' !! m = Some a →
         is_Some (volume a) ∨ (m ≠ u ∧ m ≠ v ∧ node G !! m = Some a)).
Proof.
  unfold load_edge. intros H.
  set (data := split TAB (rstrip l)) in *.
  inv_bind H.
  match goal with
  | E2 : list_get data 0 = OK ?x, E3 : list_get data 1 = OK ?y |- _ =>
      apply list_get_OK in E2, E3; rename x into u; rename y into v;
      rename E2 into Hu; rename E3 into Hv
  end.
  match goal with
  | E : classify_edge _ _ = OK ?c, En : list_get_neg data 1 ≫= py_int = OK ?k
    |- _ => rename c into cls; rename k into n; rename En into Hn
  end.
  match goal with
  | E1 : load_node _ _ G u _ _ = OK ?Ga, E2 : load_node _ _ ?Ga v _ _ = OK ?Gb
    |- _ => apply load_node_inv in E1 as (Hea & (au & Hau & Hvu) & Hoa);
            apply load_node_inv in E2 as (Heb & (av & Hav & Hvv) & Hob);
            rename Ga into G1; rename Gb into G2
  end.
  injection H as <-.
  exists u, v, n, {| edgeCode := eCode cls; edgeType := eType cls;
                     edge_colour := eColour cls; area := n; weight := 1 |}.
  assert (Hu2 : is_Some (node G2 !! u)).
  { destruct (decide (u = v)) as [->|Hne]; [by eexists|].
    rewrite Hob by done. by eexists. }
  assert (Hnode : ∀ ea m, node (add_edge G2 u v ea) !! m = node G2 !! m).
  { intros ea m. cbn [node add_edge].
    rewrite ensure_node_lookup.
    - by apply ensure_node_lookup.
    - rewrite ensure_node_lookup by done. by eexists. }
  split; [unfold line_ids; fold data; by rewrite Hu, Hv|].
  split; [done|]. split; [done|].
  split; [cbn [edge add_edge]; by rewrite Heb, Hea|].
  split.
  - intros m. rewrite Hnode.
    destruct (decide (m = v)) as [->|Hmv]; [split; [tauto | by eexists]|].
    rewrite Hob by done.
    destruct (decide (m = u)) as [->|Hmu]; [split; [tauto | by eexists]|].
    rewrite Hoa by done. tauto.
  - intros m x. rewrite Hnode. intros Hm.
    destruct (decide (m = v)) as [->|Hmv].
    { left. rewrite Hav in Hm. by injection Hm as <-. }
    rewrite Hob in Hm by done.
    destruct (decide (m = u)) as [->|Hmu].
    { left. rewrite Hau in Hm. by injection Hm as <-. }
    rewrite Hoa in Hm by done. by right.
Qed.

(** The loop over the lines of the edge list, from any graph [G]. *)
Lemma load_edges_inv (ls : list string) : ∀ G G',
  for_each (load_edge lithology_properties node_properties) ls G = OK G' →
  (∀ m, is_Some (node G' !! m) ↔
        is_Some (node G !! m)
        ∨ ∃ l u v, l ∈ ls ∧ line_ids l = Some (u, v) ∧ (m = u ∨ m = v))
  ∧ (∀ k, is_Some (edge G' !! k) ↔
          is_Some (edge G !! k)
          ∨ ∃ l u v, l ∈ ls ∧ line_ids l = Some (u, v) ∧ k = edge_key u v)
  ∧ (graph_wf G → graph_wf G')
  ∧ (has_volumes G → has_volumes G')
  ∧ (∀ k, (∀ l u v, l ∈ ls → line_ids l = Some (u, v) → edge_key u v ≠ k) →
          edge G' !! k = edge G !! k).
Proof.
  induction ls as [|l ls IH]; intros G G' H; cbn [for_each] in H.
  { injection H as <-. repeat split; try tauto.
    - intros [?|(l & u & v & Hl & _)]; [done | inversion Hl].
    - intros [?|(l & u & v & Hl & _)]; [done | inversion Hl]. }
  destruct (load_edge lithology_properties node_properties G l) as [G1|] eqn:E;
    cbn [mbind result_bind] in H; [|done].
  apply load_edge_inv in E
    as (u & v & n & ea & Hids & Hcount & Harea & Hedge & Hnode & Hvol).
  destruct (IH G1 G' H) as (IHn & IHe & IHwf & IHvol & IHkeep).
  split; [|split; [|split; [|split]]].
  - intros m. rewrite IHn, Hnode. split.
    + intros [[->|[->|?]]|(l' & u' & v' & Hl' & Hids' & Hm)].
      * right. exists l, u, v. split; [by left|]. tauto.
      * right. exists l, u, v. split; [by left|]. tauto.
      * by left.
      * right. exists l', u', v'. split; [by right|]. tauto.
    + intros [?|(l' & u' & v' & Hl' & Hids' & Hm)]; [tauto|].
      apply elem_of_cons in Hl' as [->|Hl'].
      * rewrite Hids in Hids'. injection Hids' as <- <-. tauto.
      * right. exists l', u', v'. tauto.
  - intros k. rewrite IHe, Hedge. split.
    + intros [Hk|(l' & u' & v' & Hl' & Hids' & Hk)].
      * destruct (decide (k = edge_key u v)) as [->|Hne].
        -- right. exists l, u, v. split; [by left|]. tauto.
        -- left. by rewrite lookup_insert_ne in Hk.
      * right. exists l', u', v'. split; [by right|]. tauto.
    + intros [Hk|(l' & u' & v' & Hl' & Hids' & Hk)].
      * left. destruct (decide (k = edge_key u v)) as [->|Hne].
        -- rewrite lookup_insert_eq. by eexists.
        -- by rewrite lookup_insert_ne.
      * apply elem_of_cons in Hl' as [->|Hl'].
        -- rewrite Hids in Hids'. injection Hids' as <- <-. left.
           rewrite Hk, lookup_insert_eq. by eexists.
        -- right. exists l', u', v'. tauto.
  - intros Hwf. apply IHwf. unfold graph_wf. rewrite Hedge.
    apply map_Forall_insert_2; [apply edge_key_idemp | done].
  - intros Hv. apply IHvol. intros m a Hm.
    destruct (Hvol m a Hm) as [?|(_ & _ & Hm')]; [done|]. by apply (Hv m a).
  - intros k Hk. rewrite IHkeep.
    + rewrite Hedge. apply lookup_insert_ne. apply (Hk l u v); [by left | done].
    + intros l' u' v' Hl'. apply Hk. by right.
Qed.

(** The count of the last line of a pair is the area of its edge. *)
Lemma load_edges_last (pre post : list string) (l : string) G G' u v n :
  for_each (load_edge lithology_properties node_properties)
           (pre ++ l :: post) G = OK G' →
  line_ids l = Some (u, v) → line_count l = OK n →
  (∀ l' u' v', l' ∈ post → line_ids l' = Some (u', v') →
               edge_key u' v' ≠ edge_key u v) →
  ∃ a, edge G' !! edge_key u v = Some a ∧ area a = n.
Proof.
  intros H Hids Hcount Hpost. rewrite for_each_app in H.
  destruct (for_each _ pre G) as [G1|]; cbn [mbind result_bind for_each] in H;
    [|done].
  destruct (load_edge lithology_properties node_properties G1 l) as [G2|] eqn:E;
    cbn [mbind result_bind] in H; [|done].
  apply load_edge_inv in E
    as (u' & v' & n' & ea & Hids' & Hcount' & Harea & Hedge & _).
  rewrite Hids in Hids'. injection Hids' as <- <-.
  rewrite Hcount in Hcount'. injection Hcount' as <-.
  destruct (load_edges_inv post G2 G' H) as (_ & _ & _ & _ & Hkeep).
  exists ea. split; [|done].
  rewrite Hkeep by done. rewrite Hedge. apply lookup_insert_eq.
Qed.
End BuilderFacts.

Section LoadNetworkFacts.
Context {F : Type}.
Variable float_of_str : string → result F.
Variable fdiv : F → F → F.
Variable f255 : F.

Lemma loadNetwork_inv (basename : string) (g20 vs g23 : list string) G :
  loadNetwork float_of_str fdiv f255 basename g20 vs g23 = OK G →
  ∃ lithology_properties node_properties,
    for_each (load_edge lithology_properties node_properties) g23
             (nx_Graph basename) = OK G.
Proof.
  unfold loadNetwork. intros H.
  destruct (read_properties float_of_str fdiv f255 g20 vs) as [[lp np]|];
    cbn [mbind result_bind] in H; [|done].
  by exists lp, np.
Qed.

(** A graph that [loadNetwork] returns is well formed and all its nodes
    carry a volume. *)
Lemma loadNetwork_wf (basename : string) (g20 vs g23 : list string) G :
  loadNetwork float_of_str fdiv f255 basename g20 vs g23 = OK G →
  graph_wf G ∧ has_volumes G.
Proof.
  intros (lp & np & H)%loadNetwork_inv.
  destruct (load_edges_inv lp np g23 _ _ H) as (_ & _ & Hwf & Hvol & _).
  split; [apply Hwf, nx_Graph_wf | apply Hvol, map_Forall_empty].
Qed.

(** C8: when [loadNetwork] returns, the nodes of the graph are exactly
    the identifiers in the first two fields of the lines of the
    edge-list file, no unordered pair is stored under both of its
    orders, the edges are exactly the pairs of the lines, and the area
    of the edge of a pair is the count of the last line with that
    pair. *)
Theorem loadNetwork_postcondition
    (basename : string) (g20 vs g23 : list string) G :
  loadNetwork float_of_str fdiv f255 basename g20 vs g23 = OK G →
  (∀ m, is_Some (node G !! m) ↔
        ∃ l u v, l ∈ g23 ∧ line_ids l = Some (u, v) ∧ (m = u ∨ m = v))
  ∧ (∀ u v, is_Some (edge G !! (u, v)) → is_Some (edge G !! (v, u)) → u = v)
  ∧ (∀ k, is_Some (edge G !! k) ↔
          ∃ l u v, l ∈ g23 ∧ line_ids l = Some (u, v) ∧ k = edge_key u v)
  ∧ (∀ pre l post u v n,
       g23 = (pre ++ l :: post)%list →
       line_ids l = Some (u, v) → line_count l = OK n →
       (∀ l' u' v', l' ∈ post → line_ids l' = Some (u', v') →
                    edge_key u' v' ≠ edge_key u v) →
       ∃ a, edge G !! edge_key u v = Some a ∧ area a = n).
Proof.
  intros Hload. pose proof (loadNetwork_wf _ _ _ _ _ Hload) as [Hwf _].
  apply loadNetwork_inv in Hload as (lp & np & H).
  destruct (load_edges_inv lp np g23 _ _ H) as (Hn & He & _).
  split; [|split; [|split]].
  - intros m. rewrite Hn. cbn [node nx_Graph]. rewrite lookup_empty. split.
    + intros [[? [=]]|?]; done.
    + by right.
  - intros u v [a Ha] [b Hb].
    pose proof (Hwf _ _ Ha) as Huv. pose proof (Hwf _ _ Hb) as Hvu.
    cbn in Huv, Hvu. rewrite edge_key_comm, Huv in Hvu. congruence.
  - intros k. rewrite He. cbn [edge nx_Graph]. rewrite lookup_empty. split.
    + intros [[? [=]]|?]; done.
    + by right.
  - intros pre l post u v n -> Hids Hcount Hpost.
    by apply (load_edges_last lp np pre post l _ _ u v n H).
Qed.
End LoadNetworkFacts.

(** ** The lithology definitions *)

Lemma slice_2_m3_spec {A : Type} (l : list A) :
  slice_2_m3 l = drop 2 (take (length l - 3) l).
Proof.
  unfold slice_2_m3. rewrite take_drop_commute.
  destruct (decide (5 ≤ length l)%nat) as [Hlen|Hlen].
  - do 2 f_equal. lia.
  - rewrite !drop_ge; [done | rewrite length_take; lia..].
Qed.

Lemma list_get_neg_lookup {A : Type} (l : list A) (k : nat) (x : A) :
  (k ≤ length l)%nat → l !! (length l - k)%nat = Some x →
  list_get_neg l k = OK x.
Proof.
  intros Hk Hx. unfold list_get_neg, list_get.
  destruct (Nat.ltb_spec (length l) k); [lia|]. by rewrite Hx.
Qed.

Section LithologyFacts.
Context {F : Type}.
Variable float_of_str : string → result F.
Variable fdiv : F → F → F.
Variable f255 : F.

Lemma lithology_of_definition_line (line : string) (p : litho_params F) :
  definition_line float_of_str fdiv f255 line p →
  lithology_of_tokens float_of_str fdiv f255 (split " " (strip line)) = OK p.
Proof.
  unfold definition_line. generalize (split " " (strip line)). intros l.
  intros (t0 & tr & tg & tb & r & g & b & Hlen & H0 & Hc & Hn
          & Hr & Hfr & Hg & Hfg & Hb & Hfb & Hcol).
  unfold lithology_of_tokens.
  rewrite (proj2 (list_get_OK l 0 t0) H0). cbn [mbind result_bind].
  rewrite Hc. cbn [mbind result_bind].
  rewrite (list_get_neg_lookup l 3 tr), (list_get_neg_lookup l 2 tg),
    (list_get_neg_lookup l 1 tb) by (done || lia).
  cbn [mbind result_bind]. rewrite Hfr, Hfg, Hfb. cbn [mbind result_bind].
  rewrite slice_2_m3_spec, <- Hn, <- Hcol. by destruct p.
Qed.

(** The loop over the indices from [i] visits the lines from [i]. *)
Lemma lithology_loop_drop (lines : list string) :
  ∀ (rest : list string) (i : nat) props,
    drop i lines = rest →
    for_each (lithology_step float_of_str fdiv f255 lines)
             ((λ k, Z.of_nat i + Z.of_nat k) <$> seq 0 (length rest)) props
    = for_each (lithology_of_line float_of_str fdiv f255) rest props.
Proof.
  induction rest as [|x rest IH]; intros i props Hdrop; [done|].
  assert (Hx : lines !! i = Some x).
  { rewrite <- (Nat.add_0_r i), <- lookup_drop, Hdrop. done. }
  assert (Hrest : drop (S i) lines = rest).
  { replace (S i) with (i + 1)%nat by lia. by rewrite <- drop_drop, Hdrop. }
  cbn [length seq fmap list_fmap for_each].
  assert (Hstep : lithology_step float_of_str fdiv f255 lines props
                    (Z.of_nat i + Z.of_nat 0)
                  = lithology_of_line float_of_str fdiv f255 props x).
  { unfold lithology_step, list_get_int, list_get.
    destruct (Z.ltb_spec (Z.of_nat i + Z.of_nat 0) 0); [lia|].
    replace (Z.to_nat (Z.of_nat i + Z.of_nat 0)) with i by lia.
    by rewrite Hx. }
  rewrite Hstep. destruct (lithology_of_line float_of_str fdiv f255 props x) as [props'|]; [|done].
  cbn [mbind result_bind]. rewrite <- (IH (S i) props' Hrest).
  f_equal. rewrite <- fmap_S_seq, <- list_fmap_compose.
  apply list_fmap_ext. intros _ k _. cbn. lia.
Qed.

(** C9 (amended): when the third space-separated token of the first
    line is the event count [N], the lithology definitions are the lines
    from index [N + 3] to the end of the file; the tokens of a
    definition line are the pieces of the stripped line between single
    space characters, so that two spaces in a row give an empty token
    and a tab separates nothing; the line gives the code as the integer
    of its first token, the name as the join by single spaces of the
    tokens from index 2 up to the last three, and the colour as the last
    three tokens each divided by [255.0]; the dictionary maps each code
    to its definition. *)
Theorem read_lithologies_definitions
    (lines : list string) (first tok : string) (N : Z)
    (ps : list (litho_params F)) :
  lines !! 0%nat = Some first →
  split " " first !! 2%nat = Some tok →
  py_int tok = OK N →
  0 ≤ N →
  Forall2 (definition_line float_of_str fdiv f255)
          (drop (Z.to_nat (N + 3)) lines) ps →
  read_lithologies float_of_str fdiv f255 lines
  = OK (foldl (λ props p, <[litho_code p := p]> props) ∅ ps).
Proof.
  intros Hfirst Htok HN Hpos Hdefs. unfold read_lithologies.
  rewrite (proj2 (list_get_OK lines 0 first) Hfirst). cbn [mbind result_bind].
  rewrite (proj2 (list_get_OK _ 2 tok) Htok). cbn [mbind result_bind].
  rewrite HN. cbn [mbind result_bind].
  unfold range.
  replace (Z.to_nat (Z.of_nat (length lines) - (N + 3)))
    with (length (drop (Z.to_nat (N + 3)) lines))
    by (rewrite length_drop; lia).
  replace (λ k : nat, N + 3 + Z.of_nat k)
    with (λ k : nat, Z.of_nat (Z.to_nat (N + 3)) + Z.of_nat k); last first.
  { rewrite Z2Nat.id by lia. done. }
  rewrite (lithology_loop_drop lines _ _ ∅ eq_refl).
  generalize (∅ : gmap Z (litho_params F)).
  induction Hdefs as [|line p ls ps Hline _ IH]; intros props; [done|].
  cbn [for_each foldl].
  assert (lithology_of_line float_of_str fdiv f255 props line
          = OK (<[litho_code p := p]> props)) as ->.
  { unfold lithology_of_line.
    by rewrite (lithology_of_definition_line line p Hline). }
  cbn [mbind result_bind]. apply IH.
Qed.
End LithologyFacts.

(** ** Closed examples *)

(** C2: for the one-edge graph [a - b] and the path [a - b - c] the code
    returns 1, although the edge sets differ and the ratio of
    intersection to union is 1/2: the edge [b - c], which only the
    second graph has, never reaches the union. *)
Theorem jaccard_coefficient_misses_foreign_edges :
  graph_wf graph_ab ∧ graph_wf graph_abc
  ∧ jaccard_coefficient graph_ab graph_abc = OK 1%Q
  ∧ jaccard_index graph_ab graph_abc = (1 # 2)%Q
  ∧ edge_set graph_ab ≠ edge_set graph_abc.
Proof.
  split; [apply (bool_decide_unpack (graph_wf graph_ab)); by vm_compute|].
  split; [apply (bool_decide_unpack (graph_wf graph_abc)); by vm_compute|].
  split; [by vm_compute|]. split; [by vm_compute|].
  intros Heq. apply (f_equal size) in Heq. vm_compute in Heq. discriminate.
Qed.

(** C4: from the list of the one-edge graph [a - b] and the path
    [a - b - c] both graphs are kept, and the progress lines are 1 and
    2, although the coefficient of the first with the second is 1. *)
Theorem unique_topologies_keep_matching_pair :
  calculate_unique_topologies [graph_ab; graph_abc] (Some "cumulative.txt")
    = OK ([graph_ab; graph_abc], [1; 2])
  ∧ jaccard_coefficient graph_ab graph_abc = OK 1%Q
  ∧ jaccard_coefficient graph_abc graph_ab = OK (1 # 3)%Q.
Proof. split; [by vm_compute|]. split; by vm_compute. Qed.

Lemma calculate_overlap_symmetric_witness :
  calculate_overlap graph_abc graph_ab = calculate_overlap graph_ab graph_abc
  ∧ calculate_overlap graph_abc graph_ab
    = Z.of_nat (size (edge_set graph_abc ∩ edge_set graph_ab)).
Proof.
  apply (calculate_overlap_symmetric graph_abc graph_ab).
  - apply (bool_decide_unpack (graph_wf graph_abc)). by vm_compute.
  - apply (bool_decide_unpack (graph_wf graph_ab)). by vm_compute.
Defined.

Lemma jaccard_coefficient_self_witness :
  match jaccard_coefficient (@nx_Graph Q "m") (nx_Graph "m") with
  | OK q => edge (@nx_Graph Q "m") ≠ ∅ ∧ (q == 1)%Q
  | Raise e => edge (@nx_Graph Q "m") = ∅ ∧ e = ZeroDivisionError
  end
  ∧ match jaccard_coefficient graph_abc graph_abc with
    | OK q => edge graph_abc ≠ ∅ ∧ (q == 1)%Q
    | Raise e => edge graph_abc = ∅ ∧ e = ZeroDivisionError
    end.
Proof.
  split.
  - apply (jaccard_coefficient_self (@nx_Graph Q "m")).
    apply (bool_decide_unpack (graph_wf (@nx_Graph Q "m"))). by vm_compute.
  - apply (jaccard_coefficient_self graph_abc).
    apply (bool_decide_unpack (graph_wf graph_abc)). by vm_compute.
Defined.

Lemma filter_node_volumes_exact_witness :
  filter_node_volumes ex_model 50
    = OK (pruned ex_model 50,
          Z.of_nat (size (filter (λ kv, below_volume 50 kv.2) (node ex_model))))
  ∧ (∀ n, node (pruned ex_model 50) !! n
          = a ← node ex_model !! n; if below_volume 50 a then None else Some a)
  ∧ (∀ u v, edge (pruned ex_model 50) !! (u, v)
            = if is_small ex_model 50 u || is_small ex_model 50 v then None
              else edge ex_model !! (u, v))
  ∧ filter_node_volumes (pruned ex_model 50) 50 = OK (pruned ex_model 50, 0).
Proof.
  apply (filter_node_volumes_exact ex_model 50).
  apply (bool_decide_unpack (has_volumes ex_model)). by vm_compute.
Defined.

Lemma loadNetwork_postcondition_witness :
  (∀ m, is_Some (node ex_model !! m) ↔
        ∃ l u v, l ∈ ex_g23 ∧ line_ids l = Some (u, v) ∧ (m = u ∨ m = v))
  ∧ (∀ u v, is_Some (edge ex_model !! (u, v)) →
            is_Some (edge ex_model !! (v, u)) → u = v)
  ∧ (∀ k, is_Some (edge ex_model !! k) ↔
          ∃ l u v, l ∈ ex_g23 ∧ line_ids l = Some (u, v) ∧ k = edge_key u v)
  ∧ (∀ pre l post u v n,
       ex_g23 = (pre ++ l :: post)%list →
       line_ids l = Some (u, v) → line_count l = OK n →
       (∀ l' u' v', l' ∈ post → line_ids l' = Some (u', v') →
                    edge_key u' v' ≠ edge_key u v) →
       ∃ a, edge ex_model !! edge_key u v = Some a ∧ area a = n).
Proof.
  apply (loadNetwork_postcondition float_of_int_literal Qdiv 255%Q
           "ex" ex_g20 ex_vs ex_g23 ex_model).
  by vm_compute.
Defined.

Lemma read_lithologies_definitions_witness :
  read_lithologies float_of_int_literal Qdiv 255%Q ex_g20
  = OK (foldl (λ props p, <[litho_code p := p]> props) ∅ [ex_sand; ex_basalt]).
Proof.
  apply (read_lithologies_definitions float_of_int_literal Qdiv 255%Q
           ex_g20 "#Events = 1" "1" 1 [ex_sand; ex_basalt]).
  - reflexivity.
  - reflexivity.
  - reflexivity.
  - lia.
  - repeat constructor.
    + exists "1", "255", "0", "0", 255%Q, 0%Q, 0%Q.
      repeat split; first [reflexivity | simpl; lia].
    + exists "2", "0", "51", "102", 0%Q, 51%Q, 102%Q.
      repeat split; first [reflexivity | simpl; lia].
Defined.

(** C9 (as stated) fails: the tokens are not whitespace-delimited. With
    two spaces before the name the line has the tokens of [ex_sand], but
    the code reads an empty token at index 2 and stores the name with a
    leading space; with tabs between the fields the line has the tokens
    of [ex_basalt], but the code sees a single token and [int] raises
    [ValueError]. *)
Lemma read_lithologies_not_whitespace_tokens :
  whitespace_definition_line float_of_int_literal Qdiv 255%Q
    ex_sand_two_spaces ex_sand
  ∧ read_lithologies float_of_int_literal Qdiv 255%Q
      ["#Events = 1"; "x"; "y"; "z"; ex_sand_two_spaces]
    = OK {[ 1 := {| litho_code := 1; litho_name := " Upper Sand";
                    litho_colour := litho_colour ex_sand |} ]}
  ∧ whitespace_definition_line float_of_int_literal Qdiv 255%Q
      ex_basalt_tabs ex_basalt
  ∧ read_lithologies float_of_int_literal Qdiv 255%Q
      ["#Events = 1"; "x"; "y"; "z"; ex_basalt_tabs]
    = Raise ValueError
  ∧ ¬ (∀ (lines : list string) (first tok : string) (N : Z)
         (ps : list (litho_params Q)),
         lines !! 0%nat = Some first →
         split " " first !! 2%nat = Some tok →
         py_int tok = OK N →
         0 ≤ N →
         Forall2 (whitespace_definition_line float_of_int_literal Qdiv 255%Q)
                 (drop (Z.to_nat (N + 3)) lines) ps →
         read_lithologies float_of_int_literal Qdiv 255%Q lines
         = OK (foldl (λ props p, <[litho_code p := p]> props) ∅ ps)).
Proof.
  assert (Hsand : whitespace_definition_line float_of_int_literal Qdiv 255%Q
                    ex_sand_two_spaces ex_sand).
  { exists "1", "255", "0", "0", 255%Q, 0%Q, 0%Q.
    repeat split; first [reflexivity | simpl; lia]. }
  split; [exact Hsand|]. split; [by vm_compute|]. split.
  { exists "2", "0", "51", "102", 0%Q, 51%Q, 102%Q.
    repeat split; first [reflexivity | simpl; lia]. }
  split; [by vm_compute|].
  intros H.
  specialize (H ["#Events = 1"; "x"; "y"; "z"; ex_sand_two_spaces]
                "#Events = 1" "1" 1 [ex_sand] eq_refl eq_refl eq_refl).
  assert (Hrun : read_lithologies float_of_int_literal Qdiv 255%Q
            ["#Events = 1"; "x"; "y"; "z"; ex_sand_two_spaces]
          = OK (foldl (λ props p, <[litho_code p := p]> props) ∅ [ex_sand])).
  { apply H; [lia|]. by repeat constructor. }
  apply (f_equal (λ r, match r with
                       | OK props => litho_name <$> props !! 1
                       | Raise _ => None
                       end)) in Hrun.
  vm_compute in Hrun. discriminate Hrun.
Qed.

(** * Further properties of the engine *)

(** ** The value of the coefficient *)

Lemma Z_to_pos_of_nat (n : nat) : (0 < n)%nat → Z.to_pos (Z.of_nat n) = Pos.of_nat n.
Proof.
  intros Hn. apply Pos2Z.inj. rewrite Z2Pos.id by lia.
  rewrite <- positive_nat_Z, Nat2Pos.id by lia. done.
Qed.

Section CoefficientValue.
Context {F : Type}.
Implicit Types (A B : Graph F).

Lemma size_edge_set A : size (edge_set A) = size (edge A).
Proof. apply size_dom. Qed.

Lemma size_only_mine A B :
  size (edge_set A ∖ edge_set B)
  = (size (edge A) - size (edge_set A ∩ edge_set B))%nat.
Proof.
  rewrite <- size_edge_set.
  rewrite <- (size_difference (edge_set A) (edge_set A ∩ edge_set B))
    by apply intersection_subseteq_l.
  f_equal. apply set_eq. intros k.
  rewrite !elem_of_difference, elem_of_intersection. tauto.
Qed.

Lemma size_shared_le A B :
  (size (edge_set A ∩ edge_set B) ≤ size (edge A))%nat.
Proof.
  rewrite <- size_edge_set. apply subseteq_size, intersection_subseteq_l.
Qed.

(** The quotient that the loop computes, by the sizes of the edge
    sets. *)
Lemma jaccard_coefficient_counts A B :
  graph_wf A → edge A ≠ ∅ →
  jaccard_coefficient A B
  = OK (Z.of_nat (size (edge_set A ∩ edge_set B))
        # Pos.of_nat (size (edge_set A) + size (edge_set A ∖ edge_set B)))%Q.
Proof.
  intros Hwf Hne. rewrite jaccard_coefficient_eq, shared_edge_set by done.
  pose proof (edge_nonempty_size A Hne) as Hpos.
  pose proof (size_shared_le A B) as Hle.
  rewrite size_only_mine, size_edge_set. unfold truediv.
  destruct (Z.eqb_spec
              (Z.of_nat (size (edge A))
               + (Z.of_nat (size (edge A))
                  - Z.of_nat (size (edge_set A ∩ edge_set B)))) 0); [lia|].
  do 2 f_equal. rewrite <- Z_to_pos_of_nat by lia. f_equal. lia.
Qed.

(** X1: for a well-formed graph with an edge, the coefficient is the
    number of shared edges over the number of edges of [self] plus the
    number of edges of [self] that [G2] lacks: the edges that only [self]
    has are counted twice, the edges that only [G2] has not at all. *)
Theorem jaccard_coefficient_value A B :
  graph_wf A → edge A ≠ ∅ →
  jaccard_coefficient A B
  = OK (Z.of_nat (size (edge_set A ∩ edge_set B))
        # Pos.of_nat (size (edge_set A) + size (edge_set A ∖ edge_set B)))%Q.
Proof. apply jaccard_coefficient_counts. Qed.

(** X2: for a well-formed graph with an edge the coefficient is a number
    between 0 and 1; it is 1 exactly when every edge of [self] is an
    edge of [G2] (so also when [G2] has more edges), and 0 exactly when
    the two graphs share no edge. *)
Theorem jaccard_coefficient_extremes A B :
  graph_wf A → edge A ≠ ∅ →
  ∃ q, jaccard_coefficient A B = OK q
       ∧ (0 <= q)%Q ∧ (q <= 1)%Q
       ∧ ((q == 1)%Q ↔ edge_set A ⊆ edge_set B)
       ∧ ((q == 0)%Q ↔ edge_set A ∩ edge_set B = ∅).
Proof.
  intros Hwf Hne.
  destruct (jaccard_coefficient_one_iff A B Hwf Hne) as (q & Hq & Hone).
  destruct (jaccard_coefficient_range A B Hne) as (q' & Hq' & H0 & H1).
  assert (q' = q) as -> by congruence.
  exists q. split; [done|]. split; [done|]. split; [done|]. split.
  - by rewrite <- Qeq_bool_iff.
  - rewrite jaccard_coefficient_counts in Hq by done. injection Hq as <-.
    unfold Qeq. cbn. rewrite Z.mul_1_r. split.
    + intros Hs. apply leibniz_equiv, size_empty_inv. lia.
    + intros ->. by rewrite size_empty.
Qed.

(** X3: when the two well-formed graphs have the same number of edges,
    the coefficient is the ratio of intersection to union of the edge
    sets, and it does not depend on which of the two is [self]. *)
Theorem jaccard_coefficient_equal_sizes A B :
  graph_wf A → graph_wf B → edge A ≠ ∅ → size (edge A) = size (edge B) →
  ∃ q q', jaccard_coefficient A B = OK q ∧ jaccard_coefficient B A = OK q'
          ∧ (q == jaccard_index A B)%Q ∧ (q == q')%Q.
Proof.
  intros HA HB Hne Hsize.
  assert (HneB : edge B ≠ ∅).
  { intros HB0. apply edge_nonempty_size in Hne.
    rewrite Hsize, HB0, map_size_empty in Hne. lia. }
  rewrite !jaccard_coefficient_counts by done.
  eexists _, _. split; [done|]. split; [done|].
  pose proof (edge_nonempty_size A Hne) as Hpos.
  assert (Hunion : size (edge_set A ∪ edge_set B)
                   = (size (edge_set A) + size (edge_set A ∖ edge_set B))%nat).
  { rewrite size_union_alt, !size_only_mine, !size_edge_set.
    rewrite (comm_L (∩) (edge_set B)). lia. }
  split.
  - unfold jaccard_index. by rewrite Hunion.
  - rewrite (comm_L (∩) (edge_set B)), !size_only_mine, !size_edge_set.
    rewrite (comm_L (∩) (edge_set B)), Hsize. done.
Qed.
End CoefficientValue.

(** ** Uniqueness and matching *)

Section Matching.
Context {F : Type}.
Implicit Types (self g : Graph F) (known : list (Graph F)).

(** X4: [is_unique] is [True] exactly when [find_matching] returns
    [None], and both raise the same exception otherwise. *)
Theorem is_unique_find_matching self known :
  is_unique self known
  = (λ m, match m with None => true | Some _ => false end)
      <$> find_matching self known.
Proof.
  induction known as [|g known IH]; [done|]. cbn [is_unique find_matching].
  destruct (jaccard_coefficient self g) as [q|e]; [|done].
  cbn [mbind result_bind]. by destruct (Qeq_bool q 1).
Qed.

(** X5: the graph [find_matching] returns is the first element of the
    known list whose coefficient is 1; for a well-formed [self] with an
    edge that is the first known graph that has every edge of [self]. *)
Theorem find_matching_first self known g :
  graph_wf self → edge self ≠ ∅ →
  find_matching self known = OK (Some g) →
  ∃ pre post,
    known = (pre ++ g :: post)%list
    ∧ edge_set self ⊆ edge_set g
    ∧ Forall (λ g', edge_set self ⊈ edge_set g') pre.
Proof.
  intros Hwf Hne. induction known as [|g0 known IH]; [done|].
  cbn [find_matching].
  destruct (jaccard_coefficient_one_iff self g0 Hwf Hne) as (q & -> & Hone).
  cbn [mbind result_bind]. destruct (Qeq_bool q 1) eqn:Eq.
  - intros [= <-]. exists [], known. split; [done|].
    split; [by apply Hone | constructor].
  - intros (pre & post & -> & Hsub & Hpre)%IH.
    exists (g0 :: pre), post. split; [done|]. split; [done|].
    constructor; [|done]. intros Hg0. apply Hone in Hg0. congruence.
Qed.

(** X6: for a well-formed [self] with an edge [is_unique] returns
    normally, and its answer is [True] exactly when no known graph has
    every edge of [self]: a graph whose edges all occur in a known graph
    is never unique, however many more edges the known graph has. *)
Theorem is_unique_subset self known :
  graph_wf self → edge self ≠ ∅ →
  ∃ b : bool, is_unique self known = OK b
    ∧ (b = true ↔ Forall (λ g, edge_set self ⊈ edge_set g) known).
Proof.
  intros Hwf Hne. induction known as [|g known (b & Hb & IH)].
  { exists true. split; [done|]. split; [constructor | done]. }
  cbn [is_unique].
  destruct (jaccard_coefficient_one_iff self g Hwf Hne) as (q & -> & Hone).
  cbn [mbind result_bind]. destruct (Qeq_bool q 1) eqn:Eq.
  - exists false. split; [done|]. split; [done|].
    intros [Hg _]%Forall_cons. destruct Hg. by apply Hone.
  - exists b. split; [done|]. rewrite IH, Forall_cons. split; [|tauto].
    intros Hk. split; [|done]. intros Hg. apply Hone in Hg. congruence.
Qed.
End Matching.

(** ** More on the reduction of an ensemble *)

Section Reduction.
Context {F : Type}.
Implicit Types (t g : Graph F) (uTopo known : list (Graph F)) (f : list Z).

Lemma is_unique_false t known :
  is_unique t known = OK false →
  ∃ g q, g ∈ known ∧ jaccard_coefficient t g = OK q ∧ Qeq_bool q 1 = true.
Proof.
  induction known as [|g0 known IH]; [done|]. cbn [is_unique].
  destruct (jaccard_coefficient t g0) as [q|] eqn:E;
    cbn [mbind result_bind]; [|done].
  destruct (Qeq_bool q 1) eqn:Eq.
  - intros _. exists g0, q. split; [by left | done].
  - intros (g & q' & Hg & Hq)%IH. exists g, q'. split; [by right | done].
Qed.

Lemma is_unique_intro t known :
  (∀ g, g ∈ known →
     ∃ q, jaccard_coefficient t g = OK q ∧ Qeq_bool q 1 = false) →
  is_unique t known = OK true.
Proof.
  induction known as [|g0 known IH]; intros H; [done|]. cbn [is_unique].
  destruct (H g0) as (q & Hq & Hone); [by left|].
  rewrite Hq. cbn [mbind result_bind]. rewrite Hone.
  apply IH. intros g Hg. apply H. by right.
Qed.

Lemma is_unique_total t known :
  edge t ≠ ∅ → ∃ b, is_unique t known = OK b.
Proof.
  intros Hne. induction known as [|g known [b IH]]; [by eexists|].
  cbn [is_unique].
  destruct (jaccard_coefficient_range t g Hne) as (q & -> & _).
  cbn [mbind result_bind]. destruct (Qeq_bool q 1); by eexists.
Qed.

Lemma jaccard_coefficient_no_edge t g :
  edge t = ∅ → jaccard_coefficient t g = Raise ZeroDivisionError.
Proof.
  intros HE. unfold jaccard_coefficient, number_of_edges, edges_iter.
  rewrite HE. by rewrite map_to_list_empty.
Qed.

(** The loop from the state [(uTopo, f)]: graphs are only appended, in
    the order of the input, and every input is in the result or has
    coefficient 1 with a graph of the result. *)
Lemma unique_loop_sublist (output : option string) (l : list (Graph F)) :
  ∀ uTopo f uTopo' f',
    for_each (unique_step output) l (uTopo, f) = OK (uTopo', f') →
    ∃ added,
      uTopo' = (uTopo ++ added)%list
      ∧ added `sublist_of` l
      ∧ (uTopo = [] → head added = head l)
      ∧ (∀ t, t ∈ l → t ∈ added ∨
           ∃ g q, g ∈ uTopo' ∧ jaccard_coefficient t g = OK q
                  ∧ Qeq_bool q 1 = true).
Proof.
  induction l as [|t l IH]; intros uTopo f uTopo' f' H; cbn [for_each] in H.
  { injection H as <- <-. exists []. rewrite app_nil_r.
    split; [done|]. split; [apply sublist_nil|]. split; [done|].
    intros t Ht. inversion Ht. }
  unfold unique_step at 2 in H.
  destruct (is_unique t uTopo) as [[]|] eqn:Eu;
    cbn [mbind result_bind] in H; [| |done].
  - destruct (IH _ _ _ _ H) as (added & -> & Hsub & _ & Hcover).
    exists (t :: added). split; [by rewrite <- app_assoc|].
    split; [by apply sublist_skip|]. split; [done|].
    intros t' [->|Ht']%elem_of_cons; [left; by left|].
    destruct (Hcover t' Ht') as [?|Hm]; [left; by right | by right].
  - destruct (IH _ _ _ _ H) as (added & -> & Hsub & _ & Hcover).
    exists added. split; [done|]. split; [by apply sublist_cons|].
    split; [by intros ->|].
    intros t' [->|Ht']%elem_of_cons; [|by apply Hcover].
    right. apply is_unique_false in Eu as (g & q & Hg & Hq & Hone).
    exists g, q. split; [|done]. apply elem_of_app. by left.
Qed.

Lemma unique_loop_no_output (output : option string) (l : list (Graph F)) :
  ∀ uTopo f uTopo' f' f0,
    for_each (unique_step output) l (uTopo, f) = OK (uTopo', f') →
    for_each (unique_step None) l (uTopo, f0) = OK (uTopo', f0).
Proof.
  induction l as [|t l IH]; intros uTopo f uTopo' f' f0 H; cbn [for_each] in *.
  { by injection H as <- _. }
  unfold unique_step at 2 in H. unfold unique_step at 2.
  destruct (is_unique t uTopo) as [b|]; cbn [mbind result_bind] in *; [|done].
  by apply (IH _ _ _ _ f0) in H.
Qed.

(** X7: the list [calculate_unique_topologies] returns is a sublist of
    its input in the input's order and begins with the first input; it
    is the same with and without an output file; and every input graph
    either is in it or has coefficient 1 with a graph in it. *)
Theorem calculate_unique_topologies_sublist
    (output : option string) (topology_list uTopo : list (Graph F)) f :
  calculate_unique_topologies topology_list output = OK (uTopo, f) →
  uTopo `sublist_of` topology_list
  ∧ head uTopo = head topology_list
  ∧ calculate_unique_topologies topology_list None = OK (uTopo, [])
  ∧ (∀ t, t ∈ topology_list → t ∈ uTopo ∨
       ∃ g q, g ∈ uTopo ∧ jaccard_coefficient t g = OK q ∧ (q == 1)%Q).
Proof.
  unfold calculate_unique_topologies. intros H.
  destruct (unique_loop_sublist _ _ _ _ _ _ H)
    as (added & -> & Hsub & Hhead & Hcover).
  split; [done|]. split; [by apply Hhead|]. split.
  - by apply (unique_loop_no_output _ _ _ _ _ _ [] H).
  - intros t Ht. destruct (Hcover t Ht) as [?|(g & q & Hg & Hq & Hone)].
    + by left.
    + right. exists g, q. split; [done|]. split; [done|].
      by apply Qeq_bool_iff.
Qed.

Lemma unique_loop_fixed (output : option string) (rest : list (Graph F)) :
  ∀ pre f,
    later_differs (pre ++ rest) →
    ∃ f', for_each (unique_step output) rest (pre, f) = OK ((pre ++ rest)%list, f').
Proof.
  induction rest as [|t rest IH]; intros pre f Hd; cbn [for_each].
  { exists f. by rewrite app_nil_r. }
  unfold unique_step at 2.
  rewrite (is_unique_intro t pre); last first.
  { intros g [i Hi]%list_elem_of_lookup.
    apply (Hd i (length pre) g t).
    - by eapply lookup_lt_Some.
    - by apply lookup_app_l_Some.
    - by rewrite list_lookup_middle. }
  cbn [mbind result_bind].
  destruct (IH (pre ++ [t])%list
              (match output with
               | Some _ => (f ++ [Z.of_nat (length (pre ++ [t]))])%list
               | None => f
               end)) as [f' Hf'].
  { by rewrite <- app_assoc. }
  exists f'. rewrite Hf'. by rewrite <- app_assoc.
Qed.

Lemma unique_loop_differs (output : option string) (l : list (Graph F)) :
  ∀ uTopo f uTopo' f',
    for_each (unique_step output) l (uTopo, f) = OK (uTopo', f') →
    later_differs uTopo → later_differs uTopo'.
Proof.
  induction l as [|t l IH]; intros uTopo f uTopo' f' H Hd; cbn [for_each] in H.
  { by injection H as <- _. }
  unfold unique_step at 2 in H.
  destruct (is_unique t uTopo) as [[]|] eqn:Eu;
    cbn [mbind result_bind] in H; [| |done].
  - apply (IH _ _ _ _ H). by apply later_differs_snoc.
  - by apply (IH _ _ _ _ H).
Qed.

(** X8: reducing a list that [calculate_unique_topologies] returned
    changes nothing: every graph of it is kept, in the same order. *)
Theorem calculate_unique_topologies_idempotent
    (output : option string) (topology_list uTopo : list (Graph F)) f :
  calculate_unique_topologies topology_list output = OK (uTopo, f) →
  calculate_unique_topologies uTopo None = OK (uTopo, []).
Proof.
  intros H. apply unique_loop_differs in H as Hd; last first.
  { intros i j gi gj _ Hi. by rewrite lookup_nil in Hi. }
  unfold calculate_unique_topologies.
  destruct (unique_loop_fixed None uTopo [] [] Hd) as [f' Hf'].
  by apply (unique_loop_no_output _ _ _ _ _ _ []) in Hf'.
Qed.

Lemma unique_loop_total (output : option string) (l : list (Graph F)) :
  Forall (λ t, edge t ≠ ∅) l →
  ∀ uTopo f, ∃ uTopo' f',
    for_each (unique_step output) l (uTopo, f) = OK (uTopo', f').
Proof.
  induction 1 as [|t l Ht _ IH]; intros uTopo f; cbn [for_each];
    [by eexists _, _|].
  unfold unique_step at 2.
  destruct (is_unique_total t uTopo Ht) as [b ->]. cbn [mbind result_bind].
  apply IH.
Qed.

(** X9: without an output file [calculate_unique_topologies] returns
    normally whenever every graph after the first has at least one
    edge, and it raises [ZeroDivisionError] at the first graph after the
    first that has no edge; the first graph of the list may have none. *)
Theorem calculate_unique_topologies_edgeless
    (t0 : Graph F) (pre post : list (Graph F)) :
  Forall (λ t, edge t ≠ ∅) pre →
  (∃ uTopo, calculate_unique_topologies (t0 :: pre) None = OK (uTopo, []))
  ∧ (∀ E, edge E = ∅ →
       calculate_unique_topologies (t0 :: pre ++ E :: post) None
       = Raise ZeroDivisionError).
Proof.
  intros Hpre. unfold calculate_unique_topologies. cbn [for_each].
  unfold unique_step at 2 4. cbn [is_unique mbind result_bind app].
  destruct (unique_loop_total None pre Hpre [t0] []) as (u & f & Hrun).
  assert (f = []) as ->.
  { apply (unique_loop_no_output _ _ _ _ _ _ []) in Hrun as Hrun'.
    congruence. }
  split; [by exists u|].
  intros E HE. rewrite for_each_app, Hrun. cbn [mbind result_bind for_each].
  apply unique_loop_sublist in Hrun as (added & -> & _).
  unfold unique_step at 2. cbn [app is_unique].
  by rewrite (jaccard_coefficient_no_edge E t0 HE).
Qed.
End Reduction.

(** ** More on pruning *)

Section PruningExtras.
Context {F : Type}.
Implicit Types (G : Graph F) (l : list string).

Lemma filter_node_volumes_run G (t : Z) :
  has_volumes G →
  filter_node_volumes G t
  = OK (pruned G t,
        Z.of_nat (size (filter (λ kv, below_volume t kv.2) (node G)))).
Proof.
  intros Hvol. unfold filter_node_volumes.
  destruct (filter_loop t G (nodes G) G 0)
    as (G' & Hrun & Hname & Hnode & Hedge).
  { apply NoDup_fst_map_to_list. }
  { done. }
  { intros m a _ Hm. by apply (Hvol m a). }
  { intros m. apply elem_of_nodes. }
  rewrite Hrun, Z.add_0_l, count_small. do 2 f_equal.
  destruct G' as [nm' nd' ed']. simpl in *. unfold pruned. f_equal.
  - done.
  - apply map_eq. intros m. rewrite Hnode.
    change (filter _ (node G) !! m) with (node (pruned G t) !! m).
    rewrite pruned_node.
    destruct (decide (m ∈ nodes G ∧ is_small G t m)) as [[_ H]|H].
    + unfold is_small in H. destruct (node G !! m) as [a|]; [|done].
      cbn. by destruct (below_volume t a).
    + destruct (node G !! m) as [a|] eqn:E; [|done]. cbn.
      destruct (below_volume t a) eqn:B; [|done].
      exfalso. apply H. split; [apply elem_of_nodes; by eexists|].
      unfold is_small. by rewrite E, B.
  - apply map_eq. intros k. rewrite Hedge. symmetry.
    destruct (decide ((k.1 ∈ nodes G ∧ is_small G t k.1)
                      ∨ (k.2 ∈ nodes G ∧ is_small G t k.2))) as [H|H].
    + apply map_lookup_filter_None. right. intros x' _ [Ha Hb].
      destruct H as [[_ ?]|[_ ?]]; done.
    + destruct (edge G !! k) as [x|] eqn:E.
      * apply map_lookup_filter_Some. split; [done|].
        split; intros Hs; apply H; [left|right];
          (split; [by apply is_small_elem_of with t | done]).
      * apply map_lookup_filter_None. by left.
Qed.

Lemma pruned_edge G (t : Z) (k : string * string) :
  edge (pruned G t) !! k
  = if is_small G t k.1 || is_small G t k.2 then None else edge G !! k.
Proof.
  cbn [edge pruned].
  destruct (edge G !! k) as [x|] eqn:E.
  - destruct (is_small G t k.1) eqn:Hu; cbn [orb].
    { apply map_lookup_filter_None. right. intros x' _ [Ha _].
      apply Ha. cbn. by rewrite Hu. }
    destruct (is_small G t k.2) eqn:Hv; cbn [orb].
    { apply map_lookup_filter_None. right. intros x' _ [_ Hb].
      apply Hb. cbn. by rewrite Hv. }
    apply map_lookup_filter_Some. cbn. rewrite Hu, Hv.
    split; [done|]. split; by intros ?.
  - rewrite (proj2 (map_lookup_filter_None _ _ _)) by (by left).
    by destruct (_ || _).
Qed.

Lemma pruned_has_volumes G (t : Z) : has_volumes G → has_volumes (pruned G t).
Proof.
  intros Hvol m a Hm. rewrite pruned_node in Hm.
  destruct (node G !! m) as [a0|] eqn:E; [|done]. cbn in Hm.
  destruct (below_volume t a0); [done|]. injection Hm as <-.
  by apply (Hvol m a0).
Qed.

Lemma is_small_pruned G (t1 t2 : Z) m :
  has_volumes G → t1 ≤ t2 →
  is_small G t2 m = is_small G t1 m || is_small (pruned G t1) t2 m.
Proof.
  intros Hvol Hle. unfold is_small at 1 2 3. rewrite pruned_node.
  destruct (node G !! m) as [a|] eqn:E; [|done]. cbn.
  destruct (Hvol m a E) as [v Hv]. unfold below_volume. rewrite Hv.
  destruct (Z.ltb_spec v t1), (Z.ltb_spec v t2); cbn; try lia; try done.
  - rewrite Hv. destruct (Z.ltb_spec v t2); [done | lia].
  - rewrite Hv. destruct (Z.ltb_spec v t2); [lia | done].
Qed.

Lemma pruned_pruned G (t1 t2 : Z) :
  has_volumes G → t1 ≤ t2 → pruned (pruned G t1) t2 = pruned G t2.
Proof.
  intros Hvol Hle.
  assert (Hn : ∀ m, node (pruned (pruned G t1) t2) !! m
                    = node (pruned G t2) !! m).
  { intros m. rewrite !pruned_node.
    destruct (node G !! m) as [a|] eqn:E; [|done]. cbn.
    destruct (Hvol m a E) as [v Hv]. unfold below_volume. rewrite Hv.
    destruct (Z.ltb_spec v t1), (Z.ltb_spec v t2); cbn; try lia; try done.
    - rewrite Hv. destruct (Z.ltb_spec v t2); [done | lia].
    - rewrite Hv. destruct (Z.ltb_spec v t2); [lia | done]. }
  assert (He : ∀ k, edge (pruned (pruned G t1) t2) !! k
                    = edge (pruned G t2) !! k).
  { intros k. rewrite !pruned_edge.
    rewrite (is_small_pruned G t1 t2 k.1), (is_small_pruned G t1 t2 k.2)
      by done.
    destruct (is_small G t1 k.1), (is_small G t1 k.2),
      (is_small (pruned G t1) t2 k.1), (is_small (pruned G t1) t2 k.2);
      done. }
  apply map_eq in Hn, He.
  destruct (pruned (pruned G t1) t2) as [nm nd ed] eqn:E1.
  destruct (pruned G t2) as [nm' nd' ed'] eqn:E2.
  cbn in Hn, He. subst.
  apply (f_equal graph_name) in E1, E2. cbn in E1, E2. by subst.
Qed.

(** The nodes at or above the threshold and the nodes below it make up
    all nodes. *)
Lemma size_pruned G (t : Z) :
  (size (node (pruned G t))
   + size (filter (λ kv, below_volume t kv.2) (node G)))%nat
  = size (node G).
Proof.
  pose proof (map_filter_union_complement
                (λ kv : string * node_attr F, Is_true (below_volume t kv.2))
                (node G)) as HU.
  apply (f_equal size) in HU.
  rewrite map_size_disj_union in HU by apply map_disjoint_filter_complement.
  cbn [node pruned]. cbn beta in HU. lia.
Qed.

(** X10: pruning with a threshold and then with a larger one gives the
    graph and the total count of pruning once with the larger one. *)
Theorem filter_node_volumes_twice G (t1 t2 : Z) :
  has_volumes G → t1 ≤ t2 →
  ∃ G1 c1 G2 c2,
    filter_node_volumes G t1 = OK (G1, c1)
    ∧ filter_node_volumes G1 t2 = OK (G2, c2)
    ∧ filter_node_volumes G t2 = OK (G2, c1 + c2).
Proof.
  intros Hvol Hle.
  eexists _, _, _, _.
  split; [by apply filter_node_volumes_run|].
  split; [by apply filter_node_volumes_run, pruned_has_volumes|].
  rewrite filter_node_volumes_run, pruned_pruned by done. do 2 f_equal.
  pose proof (size_pruned G t1) as H1.
  pose proof (size_pruned G t2) as H2.
  pose proof (size_pruned (pruned G t1) t2) as H12.
  rewrite pruned_pruned in H12 by done. lia.
Qed.

(** X11: pruning returns normally on a graph whose nodes all carry a
    volume, and keeps that property, the name of the graph, the storage
    of every edge under its ordered key and the presence of both end
    points of every edge; the count it returns is the number of nodes
    the graph lost. *)
Theorem filter_node_volumes_invariants G (t : Z) :
  has_volumes G →
  ∃ G' c,
    filter_node_volumes G t = OK (G', c)
    ∧ has_volumes G'
    ∧ graph_name G' = graph_name G
    ∧ Z.of_nat (size (node G')) = Z.of_nat (size (node G)) - c
    ∧ 0 ≤ c
    ∧ (graph_wf G → graph_wf G')
    ∧ (graph_closed G → graph_closed G').
Proof.
  intros Hvol. eexists _, _. split; [by apply filter_node_volumes_run|].
  split; [by apply pruned_has_volumes|]. split; [done|].
  pose proof (size_pruned G t). split; [lia|]. split; [lia|]. split.
  - intros Hwf k x Hk. rewrite pruned_edge in Hk.
    destruct (_ || _); [done|]. by apply (Hwf k x).
  - intros Hc k x Hk. rewrite pruned_edge in Hk.
    destruct (is_small G t k.1) eqn:E1; [done|].
    destruct (is_small G t k.2) eqn:E2; [done|]. cbn in Hk.
    destruct (Hc k x Hk) as [[a1 Ha1] [a2 Ha2]]. cbn in Ha1, Ha2.
    cbn beta. rewrite !pruned_node, Ha1, Ha2. cbn.
    unfold is_small in E1, E2. rewrite Ha1 in E1. rewrite Ha2 in E2.
    rewrite E1, E2. split; by eexists.
Qed.

Lemma filter_step_no_volume (t : Z) G c n a :
  node G !! n = Some a → volume a = None →
  filter_step t (G, c) n = Raise KeyError.
Proof.
  intros Hn Hv. unfold filter_step, dict_get. rewrite Hn.
  cbn [mbind result_bind]. by rewrite Hv.
Qed.

Lemma filter_loop_no_volume (t : Z) (G0 : Graph F) l : ∀ G c,
  NoDup l →
  (∀ m, m ∈ l → node G !! m = node G0 !! m) →
  (∀ m, m ∈ l → is_Some (node G0 !! m)) →
  (∃ m a, m ∈ l ∧ node G0 !! m = Some a ∧ volume a = None) →
  for_each (filter_step t) l (G, c) = Raise KeyError.
Proof.
  induction l as [|n l IH]; intros G c Hnd Hsame Hin (m & a & Hm & Ha & Hv).
  { inversion Hm. }
  apply NoDup_cons in Hnd as [Hnl Hnd].
  destruct (Hin n) as [an Han]; [by left|].
  assert (HGn : node G !! n = Some an) by (rewrite Hsame; [done | by left]).
  cbn [for_each].
  destruct (volume an) as [v|] eqn:Ev; last first.
  { by rewrite (filter_step_no_volume t G c n an). }
  assert (Hrest : ∃ m a, m ∈ l ∧ node G0 !! m = Some a ∧ volume a = None).
  { exists m, a. split; [|done].
    apply elem_of_cons in Hm as [->|?]; [congruence | done]. }
  destruct (Z.ltb_spec v t).
  - rewrite (filter_step_drop t G c n an v) by done. cbn [mbind result_bind].
    apply IH; [done| |intros; apply Hin; by right|done].
    intros m' Hm'. cbn [node]. rewrite lookup_delete_ne by (intros ->; done).
    apply Hsame. by right.
  - rewrite (filter_step_keep t G c n an v) by done. cbn [mbind result_bind].
    apply IH; [done| |intros; apply Hin; by right|done].
    intros m' Hm'. apply Hsame. by right.
Qed.

(** X12: when some node of the graph has no volume attribute,
    [filter_node_volumes] raises [KeyError], whatever the threshold. *)
Theorem filter_node_volumes_no_volume G (t : Z) :
  ¬ has_volumes G → filter_node_volumes G t = Raise KeyError.
Proof.
  intros (m & a & Hm & Hv)%map_not_Forall; [|apply _].
  apply (filter_loop_no_volume t G).
  - apply NoDup_fst_map_to_list.
  - done.
  - intros m'. apply elem_of_nodes.
  - exists m, a. split; [apply elem_of_nodes; by eexists|]. split; [done|].
    destruct (volume a); [|done]. destruct Hv. by eexists.
Qed.

(** X13: a threshold that no volume is below leaves the graph as it is
    and returns 0. *)
Theorem filter_node_volumes_nothing G (t : Z) :
  has_volumes G →
  map_Forall (λ _ a, below_volume t a = false) (node G) →
  filter_node_volumes G t = OK (G, 0).
Proof.
  intros Hvol H. unfold filter_node_volumes. apply for_each_id. intros n Hn.
  apply elem_of_nodes in Hn as [a Ha]. destruct (Hvol n a Ha) as [v Hv].
  apply filter_step_keep with a v; [done..|].
  specialize (H n a Ha). cbn in H. unfold below_volume in H. rewrite Hv in H.
  destruct (Z.ltb_spec v t); [done | lia].
Qed.

(** The pruned graph shares no more edges with another graph. *)
Lemma shared_pruned_le G (B : Graph F) (t : Z) :
  graph_wf G → calculate_overlap (pruned G t) B ≤ calculate_overlap G B.
Proof.
  intros Hwf. rewrite !calculate_overlap_eq.
  assert (Hwf' : graph_wf (pruned G t)).
  { intros k x Hk. rewrite pruned_edge in Hk.
    destruct (_ || _); [done|]. by apply (Hwf k x). }
  rewrite !shared_edge_set by done. apply inj_le, subseteq_size.
  apply intersection_mono_r. intros k. unfold edge_set.
  rewrite !elem_of_dom, pruned_edge. destruct (_ || _); [|done].
  by intros [? ?].
Qed.

(** X14: when [filter_node_volumes] returns, the graph it leaves has no
    larger overlap with another graph than the graph it was given:
    pruning [self] never raises [calculate_overlap]. *)
Theorem calculate_overlap_pruned G G' (B : Graph F) (t c : Z) :
  graph_wf G → filter_node_volumes G t = OK (G', c) →
  calculate_overlap G' B ≤ calculate_overlap G B.
Proof.
  intros Hwf Hrun.
  destruct (decide (has_volumes G)) as [Hvol|Hno].
  - rewrite (filter_node_volumes_run G t Hvol) in Hrun.
    injection Hrun as <- _. by apply shared_pruned_le.
  - assert (Hraise : filter_node_volumes G t = Raise KeyError).
    { apply map_not_Forall in Hno as (m & a & Hm & Hv); [|apply _].
      apply (filter_loop_no_volume t G).
      - apply NoDup_fst_map_to_list.
      - done.
      - intros m'. apply elem_of_nodes.
      - exists m, a. split; [apply elem_of_nodes; by eexists|].
        split; [done|].
        destruct (volume a); [|done]. destruct Hv. by eexists. }
    rewrite Hraise in Hrun. discriminate Hrun.
Qed.
End PruningExtras.

(** ** More on the edge classification *)

Lemma int_of_char_inv (c : ascii) (d : Z) :
  int_of_char c = OK d → digit_val c = Some d.
Proof.
  destruct c as [[] [] [] [] [] [] [] []]; vm_compute; intros H;
    first [discriminate H | by injection H as <-].
Qed.

Lemma digit_val_inj (c1 c2 : ascii) (d : Z) :
  digit_val c1 = Some d → digit_val c2 = Some d → c1 = c2.
Proof.
  intros H1 H2.
  destruct c1 as [[] [] [] [] [] [] [] []]; vm_compute in H1;
    try discriminate H1; injection H1 as <-;
    destruct c2 as [[] [] [] [] [] [] [] []]; vm_compute in H2;
    first [discriminate H2 | reflexivity].
Qed.

Lemma digit_val_range (c : ascii) (d : Z) : digit_val c = Some d → 0 ≤ d ≤ 9.
Proof.
  unfold digit_val.
  destruct (_ && _) eqn:E; [|done]. intros [= <-].
  apply andb_prop in E as [E1%Nat.leb_le E2%Nat.leb_le]. lia.
Qed.

Lemma for_each_ext {A S : Type} (f g : S → A → result S) (l : list A) :
  (∀ s x, x ∈ l → f s x = g s x) → ∀ s, for_each f l s = for_each g l s.
Proof.
  induction l as [|x l IH]; intros H s; [done|]. cbn [for_each].
  rewrite H by left. destruct (g s x); [|done]. cbn [mbind result_bind].
  apply IH. intros s' y Hy. apply H. by right.
Qed.

Lemma int_of_char_error (c : ascii) :
  digit_val c = None → int_of_char c = Raise ValueError.
Proof.
  destruct c as [[] [] [] [] [] [] [] []]; vm_compute; intros H;
    first [reflexivity | discriminate H].
Qed.

(** The step at a position where both codes have a character. *)
Lemma classify_at_cases topoCode1 topoCode2 st i c1 c2 :
  String.get i topoCode1 = Some c1 → String.get i topoCode2 = Some c2 →
  (c1 = c2 ∧ classify_at topoCode1 topoCode2 st i = OK st)
  ∨ (c1 ≠ c2 ∧ classify_at topoCode1 topoCode2 st i = Raise ValueError
     ∧ (digit_val c1 = None ∨ digit_val c2 = None))
  ∨ (∃ d1 d2, c1 ≠ c2 ∧ digit_val c1 = Some d1 ∧ digit_val c2 = Some d2
       ∧ d1 ≠ d2
       ∧ classify_at topoCode1 topoCode2 st i
         = OK (class_of_digits c1 c2 d1 d2)).
Proof.
  intros H1 H2. destruct (decide (c1 = c2)) as [->|Hne].
  { left. split; [done|]. by apply classify_at_same with c2. }
  right.
  destruct (digit_val c1) as [d1|] eqn:E1, (digit_val c2) as [d2|] eqn:E2.
  - right. exists d1, d2. split; [done|]. split; [done|]. split; [done|].
    split; [|by apply classify_at_diff].
    intros ->. by apply Hne, (digit_val_inj c1 c2 d2).
  - left. split; [done|]. split; [|by right].
    unfold classify_at, str_get. rewrite H1, H2. cbn [mbind result_bind].
    rewrite bool_decide_true by done.
    by rewrite (int_of_char_error c2 E2).
  - left. split; [done|]. split; [|by left].
    unfold classify_at, str_get. rewrite H1, H2. cbn [mbind result_bind].
    rewrite bool_decide_true by done.
    rewrite (int_of_char_digit c2 d2 E2). cbn [mbind result_bind].
    by rewrite (int_of_char_error c1 E1).
  - left. split; [done|]. split; [|by left].
    unfold classify_at, str_get. rewrite H1, H2. cbn [mbind result_bind].
    rewrite bool_decide_true by done.
    by rewrite (int_of_char_error c2 E2).
Qed.

Lemma class_of_digits_comm (c1 c2 : ascii) (d1 d2 : Z) :
  d1 ≠ d2 → class_of_digits c1 c2 d1 d2 = class_of_digits c2 c1 d2 d1.
Proof.
  intros Hne. unfold class_of_digits. rewrite (Z.max_comm d2 d1).
  destruct (Z.ltb_spec d1 d2), (Z.ltb_spec d2 d1); try lia; done.
Qed.

(** X15: for two topology codes of the same length the class of the edge
    does not depend on the order of the two nodes in the line, and
    neither does the exception when a compared character is no digit. *)
Theorem classify_edge_symmetric (topoCode1 topoCode2 : string) :
  String.length topoCode1 = String.length topoCode2 →
  classify_edge topoCode1 topoCode2 = classify_edge topoCode2 topoCode1.
Proof.
  intros Hlen. unfold classify_edge. rewrite <- Hlen.
  apply for_each_ext. intros st i Hi%elem_of_seq.
  destruct (get_is_Some topoCode1 i) as [c1 H1]; [lia|].
  destruct (get_is_Some topoCode2 i) as [c2 H2]; [lia|].
  destruct (classify_at_cases topoCode1 topoCode2 st i c1 c2 H1 H2)
    as [[Heq Ea]|[(Hne & Ea & Hd)|(d1 & d2 & Hne & Hd1 & Hd2 & Hd & Ea)]];
  destruct (classify_at_cases topoCode2 topoCode1 st i c2 c1 H2 H1)
    as [[Heq' Eb]|[(Hne' & Eb & Hd')|(d2' & d1' & Hne' & Hd2' & Hd1' & Hd' & Eb)]];
    rewrite Ea, Eb; try done; try congruence.
  all: try (destruct Hd as [?|?]; congruence).
  all: try (destruct Hd' as [?|?]; congruence).
  assert (d1' = d1) as -> by congruence.
  assert (d2' = d2) as -> by congruence.
  by rewrite class_of_digits_comm.
Qed.

(** X16: when the second code has fewer characters than the first has
    without its final one, the classification raises: [IndexError] at
    the end of the second code, or [ValueError] before that at a
    difference that is no digit. It never returns a class. *)
Theorem classify_edge_short_second (topoCode1 topoCode2 : string) :
  (String.length topoCode2 < String.length topoCode1 - 1)%nat →
  classify_edge topoCode1 topoCode2 = Raise IndexError
  ∨ classify_edge topoCode1 topoCode2 = Raise ValueError.
Proof.
  intros Hlen. unfold classify_edge.
  set (n := (String.length topoCode1 - 1)%nat) in *.
  set (k := String.length topoCode2) in *.
  replace (seq 0 n) with (seq 0 k ++ [k] ++ seq (S k) (n - S k))%list; last first.
  { change ([k] ++ seq (S k) (n - S k))%list with (seq k (S (n - S k))).
    rewrite <- seq_app. f_equal. lia. }
  rewrite !for_each_app.
  assert (Hpre : ∀ m j st, (j + m ≤ k)%nat →
            (∃ st', for_each (classify_at topoCode1 topoCode2)
                             (seq j m) st = OK st')
            ∨ for_each (classify_at topoCode1 topoCode2)
                       (seq j m) st = Raise ValueError).
  { induction m as [|m IH]; intros j st Hj; [left; by eexists|].
    cbn [seq for_each].
    destruct (get_is_Some topoCode1 j) as [c1 H1]; [lia|].
    destruct (get_is_Some topoCode2 j) as [c2 H2]; [unfold k in Hj; lia|].
    destruct (classify_at_cases topoCode1 topoCode2 st j c1 c2 H1 H2)
      as [[_ ->]|[(_ & -> & _)|(d1 & d2 & _ & _ & _ & _ & ->)]];
      cbn [mbind result_bind]; [apply IH; lia | by right | apply IH; lia]. }
  destruct (Hpre k 0%nat default_class) as [[st ->]| ->]; [lia| |by right].
  left. cbn [mbind result_bind for_each app].
  assert (classify_at topoCode1 topoCode2 st k = Raise IndexError) as ->; [|done].
  unfold classify_at, str_get.
  destruct (get_is_Some topoCode1 k) as [c1 ->]; [lia|].
  cbn [mbind result_bind].
  assert (String.get k topoCode2 = None) as ->; [|done].
  clear. unfold k. induction topoCode2 as [|c s IH]; [done|]. exact IH.
Qed.

Lemma edge_type_of_digit_stratigraphic (d : Z) :
  edge_type_of_digit d = stratigraphic ↔ d = 0.
Proof.
  unfold edge_type_of_digit.
  destruct (Z.eqb_spec d 0); [done|].
  destruct ((d =? 2) || (d =? 7) || (d =? 8)); [done|].
  destruct (d =? 3); [done|]. destruct (d =? 5); done.
Qed.

(** The classes that the loop of [classify_edge] can end in. *)
Lemma classify_edge_classes (topoCode1 topoCode2 : string) (c : edge_class) :
  classify_edge topoCode1 topoCode2 = OK c →
  (c = default_class
   ∧ ∀ j, (j < String.length topoCode1 - 1)%nat →
          String.get j topoCode1 = String.get j topoCode2)
  ∨ (∃ ch d,
       c = {| eCode := ECChr ch; eType := edge_type_of_digit d;
              eColour := edge_colour_of_digit d |}
       ∧ digit_val ch = Some d ∧ 1 ≤ d ≤ 9
       ∧ eType c ≠ stratigraphic
       ∧ ∃ j, (j < String.length topoCode1 - 1)%nat
              ∧ String.get j topoCode1 ≠ String.get j topoCode2).
Proof.
  unfold classify_edge. set (n := (String.length topoCode1 - 1)%nat).
  set (P := λ (m : nat) (st : edge_class),
    (st = default_class
     ∧ ∀ j, (j < m)%nat → String.get j topoCode1 = String.get j topoCode2)
    ∨ (∃ ch d,
         st = {| eCode := ECChr ch; eType := edge_type_of_digit d;
                 eColour := edge_colour_of_digit d |}
         ∧ digit_val ch = Some d ∧ 1 ≤ d ≤ 9
         ∧ eType st ≠ stratigraphic
         ∧ ∃ j, (j < m)%nat
                ∧ String.get j topoCode1 ≠ String.get j topoCode2)).
  assert (Hmono : ∀ m st, P m st →
            String.get m topoCode1 = String.get m topoCode2 → P (S m) st).
  { intros m st [[-> Heq]|(ch & d & -> & Hd & Hr & Ht & j & Hj & Hne)] Hm.
    - left. split; [done|]. intros j Hj.
      destruct (decide (j = m)) as [->|]; [done | apply Heq; lia].
    - right. exists ch, d. repeat (split; [done|]). exists j. split; [lia|done]. }
  assert (Hloop : ∀ m j st, (j + m ≤ n)%nat → P j st →
            for_each (classify_at topoCode1 topoCode2) (seq j m) st = OK c →
            P (j + m)%nat c).
  { induction m as [|m IH]; intros j st Hj HP; cbn [seq for_each].
    { intros [= <-]. by rewrite Nat.add_0_r. }
    destruct (get_is_Some topoCode1 j) as [c1 H1]; [lia|].
    destruct (String.get j topoCode2) as [c2|] eqn:H2; last first.
    { unfold classify_at, str_get. rewrite H1, H2. done. }
    replace (j + S m)%nat with (S j + m)%nat by lia.
    destruct (classify_at_cases topoCode1 topoCode2 st j c1 c2 H1 H2)
      as [[-> ->]|[(_ & -> & _)|(d1 & d2 & Hne & Hd1 & Hd2 & Hd & ->)]];
      cbn [mbind result_bind]; [| done |].
    - apply IH; [lia|]. apply Hmono; [done | congruence].
    - apply IH; [lia|]. right.
      pose proof (digit_val_range _ _ Hd1). pose proof (digit_val_range _ _ Hd2).
      exists (if d1 <? d2 then c2 else c1), (Z.max d1 d2).
      split; [done|]. split; [by destruct (Z.ltb_spec d1 d2);
                               [rewrite Z.max_r by lia | rewrite Z.max_l by lia]|].
      split; [lia|]. split.
      + cbn. rewrite edge_type_of_digit_stratigraphic. lia.
      + exists j. split; [lia | congruence]. }
  intros H. apply (Hloop n 0%nat default_class) in H; [done | lia |].
  left. split; [done|]. intros j Hj. lia.
Qed.

(** X17: a class that [classify_edge] returns is either the default
    (code [0], stratigraphic, black), and then the two codes agree on
    every compared position, or it carries a digit from 1 to 9 of one
    of the codes with the type and colour of that digit, and then the
    codes differ somewhere: a difference is never classified as
    stratigraphic. *)
Theorem classify_edge_result (topoCode1 topoCode2 : string) (c : edge_class) :
  classify_edge topoCode1 topoCode2 = OK c →
  (c = default_class
   ∧ ∀ j, (j < String.length topoCode1 - 1)%nat →
          String.get j topoCode1 = String.get j topoCode2)
  ∨ (∃ ch d,
       c = {| eCode := ECChr ch; eType := edge_type_of_digit d;
              eColour := edge_colour_of_digit d |}
       ∧ digit_val ch = Some d ∧ 1 ≤ d ≤ 9
       ∧ eType c ≠ stratigraphic
       ∧ ∃ j, (j < String.length topoCode1 - 1)%nat
              ∧ String.get j topoCode1 ≠ String.get j topoCode2).
Proof. apply classify_edge_classes. Qed.

Lemma classify_edge_agree (t1 t2 t1' t2' : string) :
  String.length t1 = String.length t1' →
  (∀ j, (j < String.length t1 - 1)%nat →
        String.get j t1 = String.get j t1' ∧ String.get j t2 = String.get j t2') →
  classify_edge t1 t2 = classify_edge t1' t2'.
Proof.
  intros Hlen H. unfold classify_edge. rewrite <- Hlen.
  apply for_each_ext. intros st i Hi%elem_of_seq.
  unfold classify_at, str_get. destruct (H i) as [-> ->]; [lia | done].
Qed.

Lemma get_append_l (s x : string) (j : nat) :
  (j < String.length s)%nat → String.get j (s ++ x) = String.get j s.
Proof.
  revert j. induction s as [|c s IH]; intros j Hj; cbn in *; [lia|].
  destruct j; [done|]. apply IH. lia.
Qed.

Lemma length_append_1 (s : string) (a : ascii) :
  String.length (s ++ String a "") = S (String.length s).
Proof.
  induction s as [|c s IH]; [done|].
  change (S (String.length (s ++ String a "")) = S (S (String.length s))).
  by f_equal.
Qed.

(** X18: the final character of each code has no influence on the class
    (when the second code is at least as long as the first). *)
Theorem classify_edge_ignores_final (s1 s2 : string) (a b a' b' : ascii) :
  (String.length s1 ≤ String.length s2)%nat →
  classify_edge (s1 ++ String a "") (s2 ++ String b "")
  = classify_edge (s1 ++ String a' "") (s2 ++ String b' "").
Proof.
  intros Hlen. apply classify_edge_agree.
  - by rewrite !length_append_1.
  - intros j Hj. rewrite length_append_1 in Hj.
    rewrite !get_append_l by lia. done.
Qed.

(** ** More on the graph builder *)

Lemma edge_colour_of_type (d : Z) :
  edge_colour_of_digit d = colour_of_type (edge_type_of_digit d).
Proof.
  unfold edge_colour_of_digit, edge_type_of_digit.
  destruct (d =? 0); [done|].
  destruct ((d =? 2) || (d =? 7) || (d =? 8)); [done|].
  destruct (d =? 3); [done|]. by destruct (d =? 5).
Qed.

Section LoadExtras.
Context {F : Type}.
Variable lithology_properties : gmap Z (litho_params F).
Variable node_properties : gmap string (vertex_params F).
Implicit Types (G : Graph F).

Lemma set_node_attr_insert (nm : string) (m : gmap string (node_attr F))
    (ed : gmap (string * string) edge_attr) (id : string) (a : node_attr F)
    (upd : node_attr F → node_attr F) :
  set_node_attr {| graph_name := nm; node := <[id := a]> m; edge := ed |} id upd
  = OK {| graph_name := nm; node := <[id := upd a]> m; edge := ed |}.
Proof.
  unfold set_node_attr, dict_get. cbn [node edge graph_name].
  rewrite lookup_insert_eq. cbn [mbind result_bind].
  by rewrite insert_insert_eq.
Qed.

(** The four statements that create a node amount to one
    resolution of its identifier and one update of the node dictionary:
    [ValueError] when the lithology code is no integer, [KeyError] when
    the lithology or the vertex is not in the property dictionaries, and
    otherwise the node carries exactly the name and colour of its
    lithology and the centroid and volume of its vertex, whatever it
    carried before. *)
Lemma load_node_resolve G (id lithoCode topoCode : string) :
  load_node lithology_properties node_properties G id lithoCode topoCode
  = c ← py_int lithoCode;
    lpar ← dict_get lithology_properties c;
    vpar ← dict_get node_properties (node_key c topoCode);
    OK {| graph_name := graph_name G;
          node := <[id := resolved_attr lithoCode lpar vpar]> (node G);
          edge := edge G |}.
Proof.
  unfold load_node.
  destruct (py_int lithoCode) as [c|e]; cbn [mbind result_bind]; [|done].
  destruct (dict_get lithology_properties c) as [lpar|e];
    cbn [mbind result_bind fmap result_fmap]; [|done].
  unfold add_node. rewrite set_node_attr_insert. cbn [mbind result_bind].
  destruct (dict_get node_properties (node_key c topoCode)) as [vpar|e];
    cbn [mbind result_bind fmap result_fmap]; [|done].
  rewrite set_node_attr_insert. cbn [mbind result_bind].
  by rewrite set_node_attr_insert.
Qed.

Lemma dict_get_OK `{Countable K} {V : Type} (d : gmap K V) (k : K) (v : V) :
  dict_get d k = OK v ↔ d !! k = Some v.
Proof.
  unfold dict_get. destruct (d !! k); split; intros Hd;
    first [by injection Hd as -> | done].
Qed.

Lemma load_node_inv_resolved G G' (id lithoCode topoCode : string) :
  split "_" id !! 0%nat = Some lithoCode →
  split "_" id !! 1%nat = Some topoCode →
  load_node lithology_properties node_properties G id lithoCode topoCode
    = OK G' →
  ∃ a, node_resolved lithology_properties node_properties id a
       ∧ G' = {| graph_name := graph_name G; node := <[id := a]> (node G);
                 edge := edge G |}.
Proof.
  intros H0 H1. rewrite load_node_resolve. intros H. inv_bind H.
  injection H as <-. eexists. split; [|done].
  match goal with
  | Ec : py_int lithoCode = OK ?c, El : dict_get lithology_properties ?c = OK ?lp,
    Ev : dict_get node_properties _ = OK ?vp |- _ =>
      apply dict_get_OK in El, Ev; by exists lithoCode, topoCode, c, lp, vp
  end.
Qed.

Lemma classify_edge_attr_ok (t1 t2 : string) (cls : edge_class) (n : Z) :
  classify_edge t1 t2 = OK cls →
  edge_attr_ok {| edgeCode := eCode cls; edgeType := eType cls;
                  edge_colour := eColour cls; area := n; weight := 1 |}.
Proof.
  intros [[-> _]|(ch & d & -> & _)]%classify_edge_classes; split; cbn;
    first [done | apply edge_colour_of_type].
Qed.

(** One line of the edge list, in full. *)
Lemma load_edge_inv_full G G' (l : string) :
  load_edge lithology_properties node_properties G l = OK G' →
  ∃ u v au av ea,
    line_ids l = Some (u, v)
    ∧ node_resolved lithology_properties node_properties u au
    ∧ node_resolved lithology_properties node_properties v av
    ∧ edge_attr_ok ea
    ∧ G' = {| graph_name := graph_name G;
              node := <[v := av]> (<[u := au]> (node G));
              edge := <[edge_key u v := ea]> (edge G) |}.
Proof.
  unfold load_edge. intros H.
  set (data := split TAB (rstrip l)) in *.
  inv_bind H.
  match goal with
  | E2 : list_get data 0 = OK ?x, E3 : list_get data 1 = OK ?y |- _ =>
      apply list_get_OK in E2, E3; rename x into u; rename y into v;
      rename E2 into Hu; rename E3 into Hv
  end.
  repeat match goal with
  | E : OK _ ≫= _ = OK _ |- _ =>
      cbn [mbind result_bind] in E; apply list_get_OK in E
  end.
  match goal with
  | E1 : load_node _ _ G u _ _ = OK ?Ga, E2 : load_node _ _ ?Ga v _ _ = OK ?Gb
    |- _ => apply load_node_inv_resolved in E1 as (au & Hau & ->); [|done..];
            apply load_node_inv_resolved in E2 as (av & Hav & ->); [|done..]
  end.
  injection H as <-.
  match goal with
  | E : classify_edge _ _ = OK ?c |- _ =>
      eapply classify_edge_attr_ok in E
  end.
  eexists u, v, au, av, _.
  split; [unfold line_ids; fold data; by rewrite Hu, Hv|].
  split; [done|]. split; [done|]. split; [eassumption|].
  unfold add_edge. cbn [graph_name node edge]. f_equal.
  unfold ensure_node at 2.
  destruct (decide (u = v)) as [->|Hne].
  - rewrite lookup_insert_eq. unfold ensure_node. by rewrite lookup_insert_eq.
  - rewrite lookup_insert_ne, lookup_insert_eq by done.
    unfold ensure_node. by rewrite lookup_insert_eq.
Qed.

(** The loop over the edge list keeps the nodes resolved, the end points
    of the edges among the nodes, the edge attributes in order and the
    name of the graph. *)
Lemma load_edges_invariants (ls : list string) : ∀ G G',
  for_each (load_edge lithology_properties node_properties) ls G = OK G' →
  (map_Forall (node_resolved lithology_properties node_properties) (node G) →
   map_Forall (node_resolved lithology_properties node_properties) (node G'))
  ∧ (graph_closed G → graph_closed G')
  ∧ (map_Forall (λ _, edge_attr_ok) (edge G) →
     map_Forall (λ _, edge_attr_ok) (edge G'))
  ∧ graph_name G' = graph_name G
  ∧ (ls ≠ [] → edge G' ≠ ∅).
Proof.
  induction ls as [|l ls IH]; intros G G' H; cbn [for_each] in H.
  { by injection H as <-. }
  destruct (load_edge lithology_properties node_properties G l) as [G1|] eqn:E;
    cbn [mbind result_bind] in H; [|done].
  apply load_edge_inv_full in E as (u & v & au & av & ea & _ & Hu & Hv & Hea & ->).
  destruct (IH _ _ H) as (IHr & IHc & IHe & IHn & IHne).
  split; [|split; [|split; [|split]]].
  - intros Hr. apply IHr. cbn [node].
    by do 2 (apply map_Forall_insert_2; [done|]).
  - intros Hc. apply IHc. unfold graph_closed. cbn [node edge].
    apply map_Forall_insert_2.
    + assert (Hk : (edge_key u v).1 = u ∧ (edge_key u v).2 = v
                   ∨ (edge_key u v).1 = v ∧ (edge_key u v).2 = u).
      { unfold edge_key. destruct (String.leb u v); cbn; tauto. }
      destruct Hk as [[-> ->]|[-> ->]]; split;
        first [ by rewrite lookup_insert_eq
              | destruct (decide (u = v)) as [->|];
                [by rewrite lookup_insert_eq
                |by rewrite lookup_insert_ne, lookup_insert_eq by done] ].
    + intros k x Hk. destruct (Hc k x Hk) as [H1 H2]. cbn beta.
      split.
      * destruct (decide (k.1 = v)) as [->|];
          [by rewrite lookup_insert_eq|rewrite lookup_insert_ne by done].
        destruct (decide (k.1 = u)) as [->|];
          [by rewrite lookup_insert_eq|by rewrite lookup_insert_ne by done].
      * destruct (decide (k.2 = v)) as [->|];
          [by rewrite lookup_insert_eq|rewrite lookup_insert_ne by done].
        destruct (decide (k.2 = u)) as [->|];
          [by rewrite lookup_insert_eq|by rewrite lookup_insert_ne by done].
  - intros He. apply IHe. cbn [edge]. by apply map_Forall_insert_2.
  - by rewrite IHn.
  - intros _. destruct ls as [|l' ls'].
    + cbn [for_each] in H. injection H as <-. cbn [edge].
      apply insert_non_empty.
    + by apply IHne.
Qed.
End LoadExtras.

Section LoadNetworkExtras.
Context {F : Type}.
Variable float_of_str : string → result F.
Variable fdiv : F → F → F.
Variable f255 : F.

(** X20: in a graph that [loadNetwork] returns every node carries the
    name and colour of the lithology and the centroid and volume of the
    vertex that its identifier names in the two property files, both
    end points of every edge are nodes, every edge has weight 1 and the
    colour of its type, and the graph has the name of the model. *)
Theorem loadNetwork_resolved
    (basename : string) (g20 vs g23 : list string) (G : Graph F) :
  loadNetwork float_of_str fdiv f255 basename g20 vs g23 = OK G →
  ∃ lithology_properties node_properties,
    read_properties float_of_str fdiv f255 g20 vs
      = OK (lithology_properties, node_properties)
    ∧ map_Forall (node_resolved lithology_properties node_properties) (node G)
    ∧ graph_closed G
    ∧ map_Forall (λ _, edge_attr_ok) (edge G)
    ∧ graph_name G = basename.
Proof.
  unfold loadNetwork. intros H.
  destruct (read_properties float_of_str fdiv f255 g20 vs) as [[lp np]|];
    cbn [mbind result_bind] in H; [|done].
  exists lp, np. split; [done|].
  destruct (load_edges_invariants lp np g23 _ _ H) as (Hr & Hc & He & Hn & _).
  split; [apply Hr, map_Forall_empty|]. split; [apply Hc, map_Forall_empty|].
  split; [apply He, map_Forall_empty | done].
Qed.

(** X21: a graph that [loadNetwork] returns from an edge list with at
    least one line can be used in the comparison and pruning without an
    exception: its coefficient with itself is 1, so it is not unique
    among a list that contains it, and [filter_node_volumes] returns
    for every threshold. *)
Theorem loadNetwork_usable
    (basename : string) (g20 vs g23 : list string) (G : Graph F)
    (known : list (Graph F)) (min_volume : Z) :
  loadNetwork float_of_str fdiv f255 basename g20 vs g23 = OK G →
  g23 ≠ [] → G ∈ known →
  (∃ q, jaccard_coefficient G G = OK q ∧ (q == 1)%Q)
  ∧ is_unique G known = OK false
  ∧ ∃ G' c, filter_node_volumes G min_volume = OK (G', c).
Proof.
  intros Hload Hne Hin.
  pose proof (loadNetwork_wf _ _ _ _ _ _ _ _ Hload) as [Hwf Hvol].
  apply loadNetwork_inv in Hload as (lp & np & H).
  destruct (load_edges_invariants lp np g23 _ _ H) as (_ & _ & _ & _ & He).
  specialize (He Hne).
  destruct (jaccard_coefficient_one_iff G G Hwf He) as (q & Hq & Hone).
  assert (Hq1 : Qeq_bool q 1 = true) by (by apply Hone).
  split; [exists q; split; [done | by apply Qeq_bool_iff]|].
  split.
  - clear Hne. induction known as [|g known IH]; [inversion Hin|].
    cbn [is_unique].
    destruct (jaccard_coefficient_range G g He) as (q' & E & _).
    rewrite E. cbn [mbind result_bind].
    destruct (Qeq_bool q' 1) eqn:E1; [done|].
    apply elem_of_cons in Hin as [->|Hin]; [congruence | by apply IH].
  - eexists _, _. by apply filter_node_volumes_run.
Qed.
End LoadNetworkExtras.

(** ** Identifiers and keys *)

Lemma digit_val_pretty_N_char (r : N) :
  (r < 10)%N → digit_val (pretty_N_char r) = Some (Z.of_N r).
Proof.
  intros Hr.
  assert (r = 0 ∨ r = 1 ∨ r = 2 ∨ r = 3 ∨ r = 4 ∨ r = 5 ∨ r = 6 ∨ r = 7
          ∨ r = 8 ∨ r = 9)%N as Hc by lia.
  repeat destruct Hc as [->|Hc]; try subst r; reflexivity.
Qed.

Lemma digits_val_pretty_N_go (x : N) : ∀ s,
  digits_val 0 (pretty_N_go x s) = digits_val (Z.of_N x) s.
Proof.
  induction (N.lt_wf_0 x) as [x _ IH]; intros s.
  destruct (decide (x = 0)%N) as [->|Hx]; [by rewrite pretty_N_go_0|].
  rewrite pretty_N_go_step by lia.
  rewrite IH by (apply N.div_lt; lia).
  cbn [digits_val]. rewrite digit_val_pretty_N_char by (apply N.mod_lt; lia).
  cbn. f_equal. rewrite (N.div_mod x 10) at 3 by lia. lia.
Qed.

Lemma digits_val_pretty_pos (p : positive) :
  digits_val 0 (pretty p) = Some (Z.pos p).
Proof.
  unfold pretty, pretty_positive, pretty, pretty_N.
  rewrite decide_False by done. by rewrite digits_val_pretty_N_go.
Qed.

Lemma digit_not_space (c : ascii) (d : Z) :
  digit_val c = Some d → py_isspace c = false.
Proof.
  unfold digit_val, py_isspace.
  destruct (_ && _) eqn:E; [|done]. intros _.
  apply andb_prop in E as [E1%Nat.leb_le E2%Nat.leb_le].
  apply orb_false_intro; [apply andb_false_intro2|]; 
    [apply Nat.leb_gt | apply Nat.eqb_neq]; lia.
Qed.

Lemma digit_not_sign (c : ascii) (d : Z) :
  digit_val c = Some d → c ≠ "-"%char ∧ c ≠ "+"%char ∧ c ≠ "_"%char.
Proof. intros H. repeat split; intros ->; by vm_compute in H. Qed.

(** A string of digits is left alone by [strip] and has no underscore. *)
Lemma digits_strip (s : string) (acc v : Z) :
  digits_val acc s = Some v →
  rstrip s = s ∧ lstrip s = s ∧ no_char "_" s.
Proof.
  revert acc. induction s as [|c s IH]; intros acc H.
  { split; [done|]. split; [done|]. by intros []. }
  cbn [digits_val] in H. destruct (digit_val c) as [d|] eqn:Ed; [|done].
  cbn in H. destruct (IH _ H) as (Hr & Hl & Hn).
  pose proof (digit_not_space c d Ed) as Hsp.
  split; [|split].
  - cbn [rstrip]. rewrite Hr, Hsp. by destruct s.
  - cbn [lstrip]. by rewrite Hsp.
  - intros [|i]; cbn.
    + intros [= ->]. by destruct (digit_not_sign _ _ Ed) as (_ & _ & ?).
    + apply Hn.
Qed.

Lemma unsigned_val_digits (s : string) (v : Z) :
  digits_val 0 s = Some v → s ≠ "" → unsigned_val s = OK v.
Proof. intros H Hs. unfold unsigned_val. destruct s; [done|]. by rewrite H. Qed.

Lemma pretty_pos_nonempty (p : positive) : pretty p ≠ "".
Proof. intros H. pose proof (digits_val_pretty_pos p) as Hp. by rewrite H in Hp. Qed.

Lemma py_int_digits (s : string) (v : Z) :
  digits_val 0 s = Some v → s ≠ "" → py_int s = OK v.
Proof.
  intros H Hs. unfold py_int, strip.
  destruct (digits_strip s 0 v H) as (-> & -> & _).
  destruct s as [|c s]; [done|].
  cbn [digits_val] in H. destruct (digit_val c) as [d|] eqn:Ed; [|done].
  assert (Hu : unsigned_val (String c s) = OK v).
  { apply unsigned_val_digits; [|done]. cbn [digits_val]. by rewrite Ed. }
  destruct (digit_not_sign c d Ed) as (Hm & Hp & _).
  destruct c as [[] [] [] [] [] [] [] []]; try done.
Qed.

(** The decimal form of an integer reads back as that integer. *)
Lemma py_int_pretty (z : Z) : py_int (pretty z) = OK z.
Proof.
  destruct z as [|p|p].
  - done.
  - apply py_int_digits; [apply digits_val_pretty_pos | apply pretty_pos_nonempty].
  - change (pretty (Z.neg p)) with (String "-" (pretty p)).
    pose proof (digits_val_pretty_pos p) as Hd.
    destruct (digits_strip (pretty p) 0 _ Hd) as (Hr & _ & _).
    unfold py_int, strip. cbn [rstrip]. rewrite Hr.
    pose proof (pretty_pos_nonempty p) as Hne.
    destruct (pretty p) as [|c r] eqn:E; [done|].
    cbn [lstrip]. change (py_isspace "-") with false. cbn iota.
    rewrite (unsigned_val_digits _ _ Hd) by done. done.
Qed.

Lemma pretty_no_underscore (z : Z) : no_char "_" (pretty z).
Proof.
  destruct z as [|p|p].
  - intros [|[|i]]; done.
  - by destruct (digits_strip _ _ _ (digits_val_pretty_pos p)) as (_ & _ & ?).
  - change (pretty (Z.neg p)) with (String "-" (pretty p)).
    destruct (digits_strip _ _ _ (digits_val_pretty_pos p)) as (_ & _ & Hn).
    intros [|i]; [done | apply Hn].
Qed.

Lemma split_no_char (sep : ascii) (s : string) :
  no_char sep s → split sep s = [s].
Proof.
  induction s as [|c s IH]; intros Hn; [done|]. cbn [split].
  rewrite bool_decide_false; last first.
  { intros ->. by apply (Hn 0%nat). }
  rewrite IH; [done|]. intros i. apply (Hn (S i)).
Qed.

Lemma split_app (sep : ascii) (s1 s2 : string) :
  no_char sep s1 →
  split sep (s1 ++ String sep s2) = s1 :: split sep s2.
Proof.
  induction s1 as [|c s IH]; intros Hn.
  { change ("" ++ String sep s2) with (String sep s2). cbn [split].
    by rewrite bool_decide_true. }
  change (String c s ++ String sep s2) with (String c (s ++ String sep s2)).
  cbn [split]. rewrite bool_decide_false; last first.
  { intros ->. by apply (Hn 0%nat). }
  rewrite IH; [done|]. intros i. apply (Hn (S i)).
Qed.

(** X22: an identifier in canonical form, the decimal lithology code, an
    underscore and a topology code without underscore, is its own lookup
    key: its two pieces are the decimal code and the topology code, the
    code reads back as the integer, the key that is looked up in the
    vertex dictionary is the identifier itself, and so a resolved node
    with that identifier has the centroid and volume of the vertex
    stored under the identifier. *)
Theorem lookup_key_canonical (litho : Z) (topo : string) :
  no_char "_" topo →
  split "_" (node_key litho topo) = [pretty litho; topo]
  ∧ py_int (pretty litho) = OK litho
  ∧ lookup_key (node_key litho topo) = OK (node_key litho topo)
  ∧ (∀ (F : Type) (lithology_properties : gmap Z (litho_params F))
       (node_properties : gmap string (vertex_params F)) (a : node_attr F),
       node_resolved lithology_properties node_properties
         (node_key litho topo) a →
       ∃ vpar, node_properties !! node_key litho topo = Some vpar
               ∧ centroid a = Some (vertex_centroid vpar)
               ∧ volume a = Some (vertex_volume vpar)).
Proof.
  intros Hn.
  assert (Hs : split "_" (node_key litho topo) = [pretty litho; topo]).
  { unfold node_key. change ("_" ++ topo) with (String "_" topo).
    rewrite split_app by apply pretty_no_underscore.
    by rewrite split_no_char. }
  split; [done|]. split; [apply py_int_pretty|]. split.
  - unfold lookup_key. rewrite Hs.
    cbn [list_get lookup list_lookup mbind result_bind].
    by rewrite py_int_pretty.
  - intros F lp np a (lc & tc & c & lpar & vpar & H0 & H1 & Hc & _ & Hv & ->).
    rewrite Hs in H0, H1. cbn in H0, H1.
    injection H0 as <-. injection H1 as <-.
    rewrite py_int_pretty in Hc. injection Hc as <-.
    by exists vpar.
Qed.

(** ** The vertex file *)

Section VertexFacts.
Context {F : Type}.
Variable float_of_str : string → result F.
Implicit Types (props : gmap string (vertex_params F)) (l : string).

Lemma vertex_step_marked props l :
  contains "PVRTX" l = true →
  vertex_step float_of_str props l
  = p ← vertex_of_line float_of_str l; OK (<[vertex_key p := p]> props).
Proof.
  intros Hm. unfold vertex_step, vertex_of_line. rewrite Hm.
  repeat match goal with
  | |- context [mbind _ ?m] =>
      lazymatch m with
      | mbind _ _ => fail
      | _ => destruct m; cbn [mbind result_bind]; [|done]
      end
  end.
  done.
Qed.

Lemma vertex_step_unmarked props l :
  contains "PVRTX" l = false → vertex_step float_of_str props l = OK props.
Proof. intros Hm. unfold vertex_step. by rewrite Hm. Qed.

Lemma vertex_of_line_fields l (p : vertex_params F) :
  vertex_of_line float_of_str l = OK p → (8 ≤ length (split " " l))%nat.
Proof.
  unfold vertex_of_line. cbv zeta. intros H. inv_bind H.
  match goal with
  | E7 : list_get (split " " l) 7 ≫= py_int = OK _ |- _ =>
      destruct (list_get (split " " l) 7) eqn:E8; [|done];
      apply list_get_OK, lookup_lt_Some in E8; lia
  end.
Qed.

(** X23: lines without the marker [PVRTX] have no influence on the
    result of reading the vertex file, whatever they contain. *)
Theorem read_vertices_marked_only (lines : list string) :
  read_vertices float_of_str lines
  = read_vertices float_of_str (filter (λ l, contains "PVRTX" l) lines).
Proof.
  unfold read_vertices. generalize (∅ : gmap string (vertex_params F)).
  induction lines as [|l lines IH]; intros props; [done|].
  destruct (contains "PVRTX" l) eqn:Hm.
  - rewrite filter_cons_True by (by rewrite Hm). cbn [for_each].
    destruct (vertex_step float_of_str props l); [|done].
    cbn [mbind result_bind]. apply IH.
  - rewrite filter_cons_False by (rewrite Hm; by intros ?). cbn [for_each].
    rewrite vertex_step_unmarked by done. cbn [mbind result_bind]. apply IH.
Qed.

Lemma read_vertices_loop_inv (lines : list string) : ∀ props props',
  for_each (vertex_step float_of_str) lines props = OK props' →
  Forall (λ l, contains "PVRTX" l = true →
               ∃ p, vertex_of_line float_of_str l = OK p
                    ∧ (8 ≤ length (split " " l))%nat) lines
  ∧ (∀ k, (∀ l p, l ∈ lines → contains "PVRTX" l = true →
                  vertex_of_line float_of_str l = OK p → vertex_key p ≠ k) →
          props' !! k = props !! k).
Proof.
  induction lines as [|l lines IH]; intros props props' H; cbn [for_each] in H.
  { injection H as <-. split; [constructor | done]. }
  destruct (vertex_step float_of_str props l) as [props1|] eqn:E;
    cbn [mbind result_bind] in H; [|done].
  destruct (IH _ _ H) as [IHf IHk]. split.
  - constructor; [|done]. intros Hm.
    rewrite vertex_step_marked in E by done.
    destruct (vertex_of_line float_of_str l) as [p|] eqn:Ep; [|done].
    exists p. split; [done|].
    by apply vertex_of_line_fields in Ep.
  - intros k Hk. rewrite IHk by (intros l' p Hl'; apply Hk; by right).
    destruct (contains "PVRTX" l) eqn:Hm.
    + rewrite vertex_step_marked in E by done.
      destruct (vertex_of_line float_of_str l) as [p|] eqn:Ep; [|done].
      cbn [mbind result_bind] in E. injection E as <-.
      apply lookup_insert_ne. apply (Hk l p); [by left | done..].
    + rewrite vertex_step_unmarked in E by done. by injection E as <-.
Qed.

(** X24: when reading the vertex file returns, every marked line has at
    least eight fields between single spaces and parses, and the vertex
    of a marked line is stored under the key of its lithology and
    topology codes, unless a later marked line has the same key. *)
Theorem read_vertices_lookup (pre post : list string) (l : string) props :
  read_vertices float_of_str (pre ++ l :: post) = OK props →
  contains "PVRTX" l = true →
  ∃ p, vertex_of_line float_of_str l = OK p
       ∧ (8 ≤ length (split " " l))%nat
       ∧ ((∀ l' p', l' ∈ post → contains "PVRTX" l' = true →
             vertex_of_line float_of_str l' = OK p' →
             vertex_key p' ≠ vertex_key p) →
          props !! vertex_key p = Some p).
Proof.
  unfold read_vertices. intros H Hm. rewrite for_each_app in H.
  destruct (for_each _ pre ∅) as [props0|];
    cbn [mbind result_bind for_each] in H; [|done].
  rewrite vertex_step_marked in H by done.
  destruct (vertex_of_line float_of_str l) as [p|] eqn:Ep;
    cbn [mbind result_bind] in H; [|done].
  exists p. split; [done|]. split.
  - by apply vertex_of_line_fields in Ep.
  - intros Hpost. destruct (read_vertices_loop_inv post _ _ H) as [_ Hk].
    rewrite Hk by done. apply lookup_insert_eq.
Qed.
End VertexFacts.

(** ** More on the lithology definitions *)

Lemma foldl_insert_lookup {V : Type} (key : V → Z) (ps : list V) :
  ∀ (m : gmap Z V) (c : Z),
    foldl (λ props p, <[key p := p]> props) m ps !! c
    = match last (filter (λ p, key p = c) ps) with
      | Some p => Some p
      | None => m !! c
      end.
Proof.
  induction ps as [|p ps IH]; intros m c; [done|]. cbn [foldl].
  rewrite IH. destruct (decide (key p = c)) as [Hk|Hk].
  - rewrite filter_cons_True by done.
    destruct (filter (λ p0, key p0 = c) ps) as [|q qs] eqn:E.
    + cbn. by rewrite <- Hk, lookup_insert_eq.
    + rewrite last_cons_cons.
      destruct (last (q :: qs)) eqn:El; [done|]. by apply last_None in El.
  - rewrite filter_cons_False by done.
    destruct (last _); [done|]. by rewrite lookup_insert_ne.
Qed.

Section LithologyExtras.
Context {F : Type}.
Variable float_of_str : string → result F.
Variable fdiv : F → F → F.
Variable f255 : F.

Lemma lithology_lines_run (ls : list string) (ps : list (litho_params F)) :
  Forall2 (definition_line float_of_str fdiv f255) ls ps →
  ∀ props,
    for_each (lithology_of_line float_of_str fdiv f255) ls props
    = OK (foldl (λ props p, <[litho_code p := p]> props) props ps).
Proof.
  induction 1 as [|line p ls ps Hline _ IH]; intros props; [done|].
  cbn [for_each foldl].
  assert (lithology_of_line float_of_str fdiv f255 props line
          = OK (<[litho_code p := p]> props)) as ->.
  { unfold lithology_of_line.
    by rewrite (lithology_of_definition_line _ _ _ line p Hline). }
  cbn [mbind result_bind]. apply IH.
Qed.

(** The lines from index [N + 3] on are read in turn. *)
Lemma read_lithologies_lines (lines : list string) (first tok : string) (N : Z) :
  lines !! 0%nat = Some first →
  split " " first !! 2%nat = Some tok →
  py_int tok = OK N →
  0 ≤ N →
  read_lithologies float_of_str fdiv f255 lines
  = for_each (lithology_of_line float_of_str fdiv f255)
             (drop (Z.to_nat (N + 3)) lines) ∅.
Proof.
  intros Hfirst Htok HN Hpos. unfold read_lithologies.
  rewrite (proj2 (list_get_OK lines 0 first) Hfirst). cbn [mbind result_bind].
  rewrite (proj2 (list_get_OK _ 2 tok) Htok). cbn [mbind result_bind].
  rewrite HN. cbn [mbind result_bind].
  unfold range.
  replace (Z.to_nat (Z.of_nat (length lines) - (N + 3)))
    with (length (drop (Z.to_nat (N + 3)) lines))
    by (rewrite length_drop; lia).
  replace (λ k : nat, N + 3 + Z.of_nat k)
    with (λ k : nat, Z.of_nat (Z.to_nat (N + 3)) + Z.of_nat k); last first.
  { rewrite Z2Nat.id by lia. done. }
  by rewrite (lithology_loop_drop _ _ _ lines _ _ ∅ eq_refl).
Qed.

(** X25: when a lithology code is defined on several lines the last
    definition is the one the dictionary holds, and a code that no line
    defines is not in the dictionary. *)
Theorem read_lithologies_last_wins
    (lines : list string) (first tok : string) (N : Z)
    (ps : list (litho_params F)) :
  lines !! 0%nat = Some first →
  split " " first !! 2%nat = Some tok →
  py_int tok = OK N →
  0 ≤ N →
  Forall2 (definition_line float_of_str fdiv f255)
          (drop (Z.to_nat (N + 3)) lines) ps →
  ∃ props,
    read_lithologies float_of_str fdiv f255 lines = OK props
    ∧ ∀ c, props !! c = last (filter (λ p, litho_code p = c) ps).
Proof.
  intros Hfirst Htok HN Hpos Hdefs. eexists. split.
  - rewrite (read_lithologies_lines lines first tok N) by done.
    by apply lithology_lines_run.
  - intros c. rewrite foldl_insert_lookup, lookup_empty. by destruct (last _).
Qed.

(** X26: a file that ends at or before line index [N + 3] defines no
    lithology: the dictionary is empty and nothing is raised. *)
Theorem read_lithologies_header_only
    (lines : list string) (first tok : string) (N : Z) :
  lines !! 0%nat = Some first →
  split " " first !! 2%nat = Some tok →
  py_int tok = OK N →
  Z.of_nat (length lines) ≤ N + 3 →
  read_lithologies float_of_str fdiv f255 lines = OK ∅.
Proof.
  intros Hfirst Htok HN Hlen. unfold read_lithologies.
  rewrite (proj2 (list_get_OK lines 0 first) Hfirst). cbn [mbind result_bind].
  rewrite (proj2 (list_get_OK _ 2 tok) Htok). cbn [mbind result_bind].
  rewrite HN. cbn [mbind result_bind]. unfold range.
  by replace (Z.to_nat (Z.of_nat (length lines) - (N + 3))) with 0%nat by lia.
Qed.

(** X27: a blank line among the definitions, such as an empty last line
    of the file, makes [read_properties] raise [ValueError] when the
    definitions before it are well formed. *)
Theorem read_lithologies_blank_line
    (lines good rest : list string) (first tok blank : string) (N : Z)
    (ps : list (litho_params F)) :
  lines !! 0%nat = Some first →
  split " " first !! 2%nat = Some tok →
  py_int tok = OK N →
  0 ≤ N →
  drop (Z.to_nat (N + 3)) lines = (good ++ blank :: rest)%list →
  Forall2 (definition_line float_of_str fdiv f255) good ps →
  strip blank = "" →
  read_lithologies float_of_str fdiv f255 lines = Raise ValueError.
Proof.
  intros Hfirst Htok HN Hpos Hdrop Hgood Hblank.
  rewrite (read_lithologies_lines lines first tok N) by done.
  rewrite Hdrop, for_each_app, (lithology_lines_run good ps Hgood).
  cbn [mbind result_bind for_each].
  assert (∀ props, lithology_of_line float_of_str fdiv f255 props blank
                   = Raise ValueError) as ->; [|done].
  intros props. unfold lithology_of_line. by rewrite Hblank.
Qed.
End LithologyExtras.

(** ** The model discretisation *)

Section ModelInfoFacts.
Context {F : Type}.
Variable float_of_str : string → result F.
Variable fsub : F → F → F.
Variable fdiv_int : F → Z → outcome F.
Implicit Types (self : model_info F) (line : string).

Lemma info_step_unmarked self line :
  info_marked line = false → info_step float_of_str self line = OK self.
Proof.
  unfold info_marked, info_step. intros H.
  repeat (apply orb_false_elim in H as [H ?]).
  by repeat match goal with Hc : contains _ line = false |- _ =>
              rewrite Hc; clear Hc end.
Qed.

Lemma info_loop_marked (lines : list string) : ∀ self,
  for_each (info_step float_of_str) lines self
  = for_each (info_step float_of_str)
             (filter (λ l, info_marked l) lines) self.
Proof.
  induction lines as [|l lines IH]; intros self; [done|].
  destruct (info_marked l) eqn:Hm.
  - rewrite filter_cons_True by (by rewrite Hm). cbn [for_each].
    destruct (info_step float_of_str self l); [|done].
    cbn [mbind result_bind]. apply IH.
  - rewrite filter_cons_False by (rewrite Hm; by intros ?). cbn [for_each].
    rewrite info_step_unmarked by done. cbn [mbind result_bind]. apply IH.
Qed.

(** X28: the lines of the [.g00] file that contain none of the five
    headings have no influence on [load_model_info]; on a new object a
    file without any such line raises [AttributeError]. *)
Theorem load_model_info_marked_only self (filelines : list string) :
  load_model_info float_of_str fsub fdiv_int self filelines
  = load_model_info float_of_str fsub fdiv_int self
      (filter (λ l, info_marked l) filelines)
  ∧ (filter (λ l, info_marked l) filelines = [] →
     load_model_info float_of_str fsub fdiv_int no_info filelines
     = RaisesOther "AttributeError").
Proof.
  split.
  - unfold load_model_info. by rewrite info_loop_marked.
  - intros Hnone. unfold load_model_info.
    by rewrite info_loop_marked, Hnone.
Qed.

(** What one step does to the attributes [nz], [nx], [xmin], [xmax]. *)
Lemma info_step_effect self self' line :
  info_step float_of_str self line = OK self' →
  (if contains "NUMBER OF LAYERS" line
   then ∃ z, list_get (split "=" line) 1 ≫= py_int = OK z ∧ nz self' = Some z
   else nz self' = nz self)
  ∧ ((nx self' = nx self ∧ ny self' = ny self)
     ∨ contains "LAYER 1 DIMENSIONS" line = true)
  ∧ (xmin self' = xmin self ∨ contains "UPPER SW CORNER" line = true)
  ∧ (xmax self' = xmax self ∨ contains "LOWER NE CORNER" line = true).
Proof.
  unfold info_step. intros H.
  destruct (contains "NUMBER OF LAYERS" line);
    [|destruct (contains "LAYER 1 DIMENSIONS" line);
      [|destruct (contains "UPPER SW CORNER" line);
        [|destruct (contains "LOWER NE CORNER" line);
          [|destruct (contains "NUM ROCK" line)]]]];
    inv_bind H;
    repeat match type of H with
           | match ?l with _ => _ end = _ => destruct l; try discriminate H
           end;
    injection H as <-; cbn;
    (split; [by eauto|]); (split; [by auto|]); (split; by auto).
Qed.

Lemma info_loop_effect (lines : list string) : ∀ self self',
  for_each (info_step float_of_str) lines self = OK self' →
  match last (filter (λ l, contains "NUMBER OF LAYERS" l) lines) with
  | Some l => ∃ z, list_get (split "=" l) 1 ≫= py_int = OK z
                   ∧ nz self' = Some z
  | None => nz self' = nz self
  end
  ∧ ((nx self' = nx self ∧ ny self' = ny self)
     ∨ Exists (λ l, contains "LAYER 1 DIMENSIONS" l = true) lines)
  ∧ (xmin self' = xmin self
     ∨ Exists (λ l, contains "UPPER SW CORNER" l = true) lines)
  ∧ (xmax self' = xmax self
     ∨ Exists (λ l, contains "LOWER NE CORNER" l = true) lines).
Proof.
  induction lines as [|l lines IH]; intros self self' H; cbn [for_each] in H.
  { injection H as <-. cbn. tauto. }
  destruct (info_step float_of_str self l) as [self1|] eqn:E;
    cbn [mbind result_bind] in H; [|done].
  apply info_step_effect in E as (Hz & Hx & Hlo & Hhi).
  destruct (IH _ _ H) as (IHz & IHx & IHlo & IHhi).
  split; [|split; [|split]].
  - destruct (contains "NUMBER OF LAYERS" l) eqn:Hm.
    + rewrite filter_cons_True by (by rewrite Hm).
      destruct (filter _ lines) as [|l' ls'] eqn:Ef.
      * cbn in *. destruct Hz as (z & Hp & Hz). exists z. by rewrite IHz.
      * rewrite last_cons_cons in *.
        destruct (last (l' :: ls')) eqn:El; [done|].
        by apply last_None in El.
    + rewrite filter_cons_False by (rewrite Hm; by intros ?).
      destruct (last _); [done | congruence].
  - destruct IHx as [[-> ->]|?]; [|right; by right].
    destruct Hx as [?|?]; [by left | right; by left].
  - destruct IHlo as [->|?]; [|right; by right].
    destruct Hlo as [?|?]; [by left | right; by left].
  - destruct IHhi as [->|?]; [|right; by right].
    destruct Hhi as [?|?]; [by left | right; by left].
Qed.

(** X29: when [load_model_info] returns on a new object, the file has a
    line for the number of layers, for the layer dimensions and for each
    of the two corners; [nz] is the integer after the [=] of the last
    line with the number of layers, and [n_total] is the product of
    [nx], [ny] and [nz]. *)
Theorem load_model_info_returns (filelines : list string) (self : model_info F) :
  load_model_info float_of_str fsub fdiv_int no_info filelines = Returns self →
  ∃ l x y z,
    last (filter (λ l, contains "NUMBER OF LAYERS" l) filelines) = Some l
    ∧ list_get (split "=" l) 1 ≫= py_int = OK z
    ∧ nz self = Some z ∧ nx self = Some x ∧ ny self = Some y
    ∧ n_total self = Some (x * y * z)
    ∧ Exists (λ l, contains "LAYER 1 DIMENSIONS" l = true) filelines
    ∧ Exists (λ l, contains "UPPER SW CORNER" l = true) filelines
    ∧ Exists (λ l, contains "LOWER NE CORNER" l = true) filelines.
Proof.
  unfold load_model_info. intros H.
  destruct (for_each (info_step float_of_str) filelines no_info)
    as [self1|] eqn:E; cbn [of_result mbind outcome_bind] in H; [|done].
  apply info_loop_effect in E as (Hz & Hx & Hlo & Hhi).
  unfold derive_info in H.
  destruct (nx self1) as [x|] eqn:Ex; cbn [getattr mbind outcome_bind] in H; [|done].
  destruct (ny self1) as [y|] eqn:Ey; cbn [getattr mbind outcome_bind] in H; [|done].
  destruct (nz self1) as [z|] eqn:Ez; cbn [getattr mbind outcome_bind] in H; [|done].
  destruct (xmax self1) as [x1|] eqn:Ex1; cbn [getattr mbind outcome_bind] in H; [|done].
  destruct (xmin self1) as [x0|] eqn:Ex0; cbn [getattr mbind outcome_bind] in H; [|done].
  destruct (ymax self1) as [y1|]; cbn [getattr mbind outcome_bind] in H; [|done].
  destruct (ymin self1) as [y0|]; cbn [getattr mbind outcome_bind] in H; [|done].
  destruct (zmax self1) as [z1|]; cbn [getattr mbind outcome_bind] in H; [|done].
  destruct (zmin self1) as [z0|]; cbn [getattr mbind outcome_bind] in H; [|done].
  destruct (fdiv_int (fsub x1 x0) x); cbn [mbind outcome_bind] in H; try done.
  destruct (fdiv_int (fsub y1 y0) y); cbn [mbind outcome_bind] in H; try done.
  destruct (fdiv_int (fsub z1 z0) z); cbn [mbind outcome_bind] in H; try done.
  injection H as <-. cbn [nz nx ny n_total].
  destruct (last _) as [l|].
  - destruct Hz as (z' & Hp & Hz'). exists l, x, y, z.
    assert (z' = z) as -> by congruence.
    split; [done|]. split; [done|]. do 4 (split; [done|]).
    split; [by destruct Hx as [[? ?]|?]|].
    split; [by destruct Hlo as [?|?] | by destruct Hhi as [?|?]].
  - cbn in Hz. congruence.
Qed.
End ModelInfoFacts.

(** ** Closed examples of the further properties *)

Lemma jaccard_coefficient_value_witness :
  jaccard_coefficient graph_abc graph_ab
  = OK (Z.of_nat (size (edge_set graph_abc ∩ edge_set graph_ab))
        # Pos.of_nat (size (edge_set graph_abc)
                      + size (edge_set graph_abc ∖ edge_set graph_ab)))%Q.
Proof.
  apply (jaccard_coefficient_value graph_abc graph_ab).
  - apply (bool_decide_unpack (graph_wf graph_abc)). by vm_compute.
  - intros H. apply (f_equal size) in H. vm_compute in H. discriminate H.
Defined.

Lemma jaccard_coefficient_extremes_witness :
  ∃ q, jaccard_coefficient graph_ab graph_abc = OK q
       ∧ (0 <= q)%Q ∧ (q <= 1)%Q
       ∧ ((q == 1)%Q ↔ edge_set graph_ab ⊆ edge_set graph_abc)
       ∧ ((q == 0)%Q ↔ edge_set graph_ab ∩ edge_set graph_abc = ∅).
Proof.
  apply (jaccard_coefficient_extremes graph_ab graph_abc).
  - apply (bool_decide_unpack (graph_wf graph_ab)). by vm_compute.
  - intros H. apply (f_equal size) in H. vm_compute in H. discriminate H.
Defined.

Lemma jaccard_coefficient_equal_sizes_witness :
  ∃ q q', jaccard_coefficient graph_ab graph_cd = OK q
          ∧ jaccard_coefficient graph_cd graph_ab = OK q'
          ∧ (q == jaccard_index graph_ab graph_cd)%Q ∧ (q == q')%Q.
Proof.
  apply (jaccard_coefficient_equal_sizes graph_ab graph_cd).
  - apply (bool_decide_unpack (graph_wf graph_ab)). by vm_compute.
  - apply (bool_decide_unpack (graph_wf graph_cd)). by vm_compute.
  - intros H. apply (f_equal size) in H. vm_compute in H. discriminate H.
  - by vm_compute.
Defined.

Lemma find_matching_first_witness :
  ∃ pre post,
    [graph_cd; graph_abc; graph_ab] = (pre ++ graph_abc :: post)%list
    ∧ edge_set graph_ab ⊆ edge_set graph_abc
    ∧ Forall (λ g', edge_set graph_ab ⊈ edge_set g') pre.
Proof.
  apply (find_matching_first graph_ab [graph_cd; graph_abc; graph_ab] graph_abc).
  - apply (bool_decide_unpack (graph_wf graph_ab)). by vm_compute.
  - intros H. apply (f_equal size) in H. vm_compute in H. discriminate H.
  - by vm_compute.
Defined.

Lemma is_unique_subset_witness :
  ∃ b : bool, is_unique graph_ab [graph_cd; graph_abc] = OK b
    ∧ (b = true
       ↔ Forall (λ g, edge_set graph_ab ⊈ edge_set g) [graph_cd; graph_abc]).
Proof.
  apply (is_unique_subset graph_ab [graph_cd; graph_abc]).
  - apply (bool_decide_unpack (graph_wf graph_ab)). by vm_compute.
  - intros H. apply (f_equal size) in H. vm_compute in H. discriminate H.
Defined.

Lemma calculate_unique_topologies_progress_witness :
  length [1; 2; 2] = length [graph_ab; graph_abc; graph_ab]
  ∧ StronglySorted Z.le [1; 2; 2]
  ∧ (∀ x, last [1; 2; 2] = Some x →
          x = Z.of_nat (length [graph_ab; graph_abc])
          ∧ x ≤ Z.of_nat (length [graph_ab; graph_abc; graph_ab]))
  ∧ later_differs [graph_ab; graph_abc].
Proof.
  apply (calculate_unique_topologies_progress
           "unique.txt" [graph_ab; graph_abc; graph_ab]
           [graph_ab; graph_abc] [1; 2; 2]).
  by vm_compute.
Defined.

Lemma calculate_unique_topologies_sublist_witness :
  [graph_ab; graph_abc] `sublist_of` [graph_ab; graph_abc; graph_ab]
  ∧ head [graph_ab; graph_abc] = head [graph_ab; graph_abc; graph_ab]
  ∧ calculate_unique_topologies [graph_ab; graph_abc; graph_ab] None
    = OK ([graph_ab; graph_abc], [])
  ∧ (∀ t, t ∈ [graph_ab; graph_abc; graph_ab] → t ∈ [graph_ab; graph_abc] ∨
       ∃ g q, g ∈ [graph_ab; graph_abc]
              ∧ jaccard_coefficient t g = OK q ∧ (q == 1)%Q).
Proof.
  apply (calculate_unique_topologies_sublist
           (Some "unique.txt") [graph_ab; graph_abc; graph_ab]
           [graph_ab; graph_abc] [1; 2; 2]).
  by vm_compute.
Defined.

Lemma calculate_unique_topologies_idempotent_witness :
  calculate_unique_topologies [graph_ab; graph_abc] None
  = OK ([graph_ab; graph_abc], []).
Proof.
  apply (calculate_unique_topologies_idempotent
           (Some "unique.txt") [graph_ab; graph_abc; graph_ab]
           [graph_ab; graph_abc] [1; 2; 2]).
  by vm_compute.
Defined.

Lemma calculate_unique_topologies_edgeless_witness :
  (∃ uTopo,
     calculate_unique_topologies [nx_Graph "empty"; graph_ab] None
     = OK (uTopo, []))
  ∧ (∀ E, edge E = ∅ →
       calculate_unique_topologies
         (nx_Graph "empty" :: [graph_ab] ++ E :: [graph_cd]) None
       = Raise ZeroDivisionError).
Proof.
  apply (calculate_unique_topologies_edgeless
           (nx_Graph "empty") [graph_ab] [graph_cd]).
  constructor; [|constructor].
  intros H. apply (f_equal size) in H. vm_compute in H. discriminate H.
Defined.

Lemma filter_node_volumes_twice_witness :
  ∃ G1 c1 G2 c2,
    filter_node_volumes ex_model 10 = OK (G1, c1)
    ∧ filter_node_volumes G1 70 = OK (G2, c2)
    ∧ filter_node_volumes ex_model 70 = OK (G2, c1 + c2).
Proof.
  apply (filter_node_volumes_twice ex_model 10 70).
  - apply (bool_decide_unpack (has_volumes ex_model)). by vm_compute.
  - lia.
Defined.

Lemma filter_node_volumes_invariants_witness :
  ∃ G' c,
    filter_node_volumes ex_model 50 = OK (G', c)
    ∧ has_volumes G'
    ∧ graph_name G' = graph_name ex_model
    ∧ Z.of_nat (size (node G')) = Z.of_nat (size (node ex_model)) - c
    ∧ 0 ≤ c
    ∧ (graph_wf ex_model → graph_wf G')
    ∧ (graph_closed ex_model → graph_closed G').
Proof.
  apply (filter_node_volumes_invariants ex_model 50).
  apply (bool_decide_unpack (has_volumes ex_model)). by vm_compute.
Defined.

Lemma filter_node_volumes_no_volume_witness :
  filter_node_volumes graph_ab 50 = Raise KeyError.
Proof.
  apply (filter_node_volumes_no_volume graph_ab 50).
  apply (bool_decide_unpack (¬ has_volumes graph_ab)). by vm_compute.
Defined.

Lemma filter_node_volumes_nothing_witness :
  filter_node_volumes ex_model 5 = OK (ex_model, 0).
Proof.
  apply (filter_node_volumes_nothing ex_model 5).
  - apply (bool_decide_unpack (has_volumes ex_model)). by vm_compute.
  - apply (bool_decide_unpack
             (map_Forall (λ _ a, below_volume 5 a = false) (node ex_model))).
    by vm_compute.
Defined.

Lemma calculate_overlap_pruned_witness :
  calculate_overlap (pruned ex_model 50) ex_model
  ≤ calculate_overlap ex_model ex_model.
Proof.
  apply (calculate_overlap_pruned ex_model (pruned ex_model 50) ex_model 50 1).
  - apply (bool_decide_unpack (graph_wf ex_model)). by vm_compute.
  - by vm_compute.
Defined.

Lemma classify_edge_symmetric_witness :
  classify_edge "012a" "035b" = classify_edge "035b" "012a".
Proof. apply (classify_edge_symmetric "012a" "035b"). reflexivity. Defined.

Lemma classify_edge_short_second_witness :
  classify_edge "0123a" "01" = Raise IndexError
  ∨ classify_edge "0123a" "01" = Raise ValueError.
Proof. apply (classify_edge_short_second "0123a" "01"). simpl. lia. Defined.

Lemma classify_edge_result_witness :
  let c := {| eCode := ECChr "5"; eType := intrusive; eColour := "y" |} in
  (c = default_class
   ∧ ∀ j, (j < String.length "012a" - 1)%nat →
          String.get j "012a" = String.get j "035a")
  ∨ (∃ ch d,
       c = {| eCode := ECChr ch; eType := edge_type_of_digit d;
              eColour := edge_colour_of_digit d |}
       ∧ digit_val ch = Some d ∧ 1 ≤ d ≤ 9
       ∧ eType c ≠ stratigraphic
       ∧ ∃ j, (j < String.length "012a" - 1)%nat
              ∧ String.get j "012a" ≠ String.get j "035a").
Proof.
  apply (classify_edge_result "012a" "035a"
           {| eCode := ECChr "5"; eType := intrusive; eColour := "y" |}).
  reflexivity.
Defined.

Lemma classify_edge_ignores_final_witness :
  classify_edge ("01" ++ "a") ("02" ++ "b")
  = classify_edge ("01" ++ "c") ("02" ++ "d").
Proof.
  apply (classify_edge_ignores_final "01" "02" "a" "b" "c" "d").
  simpl. lia.
Defined.

Lemma loadNetwork_resolved_witness :
  ∃ lithology_properties node_properties,
    read_properties float_of_int_literal Qdiv 255%Q ex_g20 ex_vs
      = OK (lithology_properties, node_properties)
    ∧ map_Forall (node_resolved lithology_properties node_properties)
                 (node ex_model)
    ∧ graph_closed ex_model
    ∧ map_Forall (λ _, edge_attr_ok) (edge ex_model)
    ∧ graph_name ex_model = "ex".
Proof.
  apply (loadNetwork_resolved float_of_int_literal Qdiv 255%Q
           "ex" ex_g20 ex_vs ex_g23 ex_model).
  by vm_compute.
Defined.

Lemma loadNetwork_usable_witness :
  (∃ q, jaccard_coefficient ex_model ex_model = OK q ∧ (q == 1)%Q)
  ∧ is_unique ex_model [graph_ab; ex_model] = OK false
  ∧ ∃ G' c, filter_node_volumes ex_model 50 = OK (G', c).
Proof.
  apply (loadNetwork_usable float_of_int_literal Qdiv 255%Q
           "ex" ex_g20 ex_vs ex_g23 ex_model [graph_ab; ex_model] 50).
  - by vm_compute.
  - discriminate.
  - right. left.
Defined.

Lemma lookup_key_canonical_witness :
  split "_" (node_key 1 "000a") = [pretty 1; "000a"]
  ∧ py_int (pretty 1) = OK 1
  ∧ lookup_key (node_key 1 "000a") = OK (node_key 1 "000a")
  ∧ (∀ (F : Type) (lithology_properties : gmap Z (litho_params F))
       (node_properties : gmap string (vertex_params F)) (a : node_attr F),
       node_resolved lithology_properties node_properties
         (node_key 1 "000a") a →
       ∃ vpar, node_properties !! node_key 1 "000a" = Some vpar
               ∧ centroid a = Some (vertex_centroid vpar)
               ∧ volume a = Some (vertex_volume vpar)).
Proof.
  apply (lookup_key_canonical 1 "000a").
  intros [|[|[|[|i]]]]; simpl; discriminate.
Defined.

Lemma read_vertices_lookup_witness :
  ∃ p, vertex_of_line float_of_int_literal "PVRTX 1 10 20 30 1 000a 100
" = OK p
       ∧ (8 ≤ length (split " " "PVRTX 1 10 20 30 1 000a 100
"))%nat
       ∧ ((∀ l' p', l' ∈ drop 1 ex_vs → contains "PVRTX" l' = true →
             vertex_of_line float_of_int_literal l' = OK p' →
             vertex_key p' ≠ vertex_key p) →
          ex_vertices !! vertex_key p = Some p).
Proof.
  apply (read_vertices_lookup float_of_int_literal [] (drop 1 ex_vs)
           "PVRTX 1 10 20 30 1 000a 100
" ex_vertices).
  - by vm_compute.
  - reflexivity.
Defined.

Lemma read_lithologies_last_wins_witness :
  ∃ props,
    read_lithologies float_of_int_literal Qdiv 255%Q ex_g20 = OK props
    ∧ ∀ c, props !! c
           = last (filter (λ p, litho_code p = c) [ex_sand; ex_basalt]).
Proof.
  apply (read_lithologies_last_wins float_of_int_literal Qdiv 255%Q
           ex_g20 "#Events = 1" "1" 1 [ex_sand; ex_basalt]).
  - reflexivity.
  - reflexivity.
  - reflexivity.
  - lia.
  - repeat constructor.
    + exists "1", "255", "0", "0", 255%Q, 0%Q, 0%Q.
      repeat split; first [reflexivity | simpl; lia].
    + exists "2", "0", "51", "102", 0%Q, 51%Q, 102%Q.
      repeat split; first [reflexivity | simpl; lia].
Defined.

Lemma read_lithologies_header_only_witness :
  read_lithologies float_of_int_literal Qdiv 255%Q ["#Events = 1"; "x"; "y"]
  = OK ∅.
Proof.
  apply (read_lithologies_header_only float_of_int_literal Qdiv 255%Q
           ["#Events = 1"; "x"; "y"] "#Events = 1" "1" 1).
  - reflexivity.
  - reflexivity.
  - reflexivity.
  - simpl. lia.
Defined.

Lemma read_lithologies_blank_line_witness :
  read_lithologies float_of_int_literal Qdiv 255%Q (ex_g20 ++ [""])
  = Raise ValueError.
Proof.
  apply (read_lithologies_blank_line float_of_int_literal Qdiv 255%Q
           (ex_g20 ++ [""]) (drop 4 ex_g20) [] "#Events = 1" "1" "" 1
           [ex_sand; ex_basalt]).
  - reflexivity.
  - reflexivity.
  - reflexivity.
  - lia.
  - reflexivity.
  - repeat constructor.
    + exists "1", "255", "0", "0", 255%Q, 0%Q, 0%Q.
      repeat split; first [reflexivity | simpl; lia].
    + exists "2", "0", "51", "102", 0%Q, 51%Q, 102%Q.
      repeat split; first [reflexivity | simpl; lia].
  - reflexivity.
Defined.

Lemma load_model_info_returns_witness :
  ∃ l x y z,
    last (filter (λ l, contains "NUMBER OF LAYERS" l) ex_g00) = Some l
    ∧ list_get (split "=" l) 1 ≫= py_int = OK z
    ∧ nz ex_info = Some z ∧ nx ex_info = Some x ∧ ny ex_info = Some y
    ∧ n_total ex_info = Some (x * y * z)
    ∧ Exists (λ l, contains "LAYER 1 DIMENSIONS" l = true) ex_g00
    ∧ Exists (λ l, contains "UPPER SW CORNER" l = true) ex_g00
    ∧ Exists (λ l, contains "LOWER NE CORNER" l = true) ex_g00.
Proof.
  apply (load_model_info_returns float_of_int_literal Qminus fdiv_intQ
           ex_g00 ex_info).
  by vm_compute.
Defined.

Lemma load_model_info_marked_only_witness :
  load_model_infoQ no_info ex_g00
  = load_model_infoQ no_info (filter (λ l, info_marked l) ex_g00)
  ∧ (filter (λ l, info_marked l) ex_g00 = [] →
     load_model_infoQ no_info ex_g00 = RaisesOther "AttributeError").
Proof.
  apply (load_model_info_marked_only float_of_int_literal Qminus fdiv_intQ
           no_info ex_g00).
Defined.
